(** * saude-municipal-analise: the dashboard script [app.py]

    A shallow embedding of the data pipeline of [app.py]: the synthetic
    dataset generator [carregar_dados_completos], the filter stage
    [df_filtrado], the size classes [porte], the quantile cohorts
    [alto_idosos] / [baixo_idosos] and the metrics shown in the insights box.

    Conventions.
    - A pandas [DataFrame] is the list of its rows, a [Series] the list of its
      values, both in index order.
    - A float64 column of the generated table holds finite numbers only; such
      a number is a rational ([Q]) and arithmetic on it is exact (rounding to
      binary64 is not modelled).  Aggregates, which can be NaN or infinite,
      live in [float64].  Where rounding decides between NaN and a number,
      in the mean a correlation takes its deviations from, the mean is the
      platform's ([average]) and not the exact one.
    - [np.random] is numpy's legacy global [RandomState]: MT19937 seeded with
      [init_genrand], integers by masked rejection, doubles from two words,
      normals by the polar method.  Its rejection loops are bounded by a
      [fuel] argument; running out of fuel is [None]. *)

From Stdlib Require Import ZArith QArith Qround Qabs List Bool Lia String Ascii.
From Stdlib Require Import DecimalString Lqa Sorted.
Import ListNotations.

Open Scope Z_scope.

(** ** numpy's legacy random state *)

Module NpRandom.

Definition mask32 : Z := 4294967295.

(** [init_genrand]: the 624 words that [np.random.seed(s)] writes. *)
Fixpoint init_words (n : nat) (prev i : Z) : list Z :=
  match n with
  | O => []
  | S n' =>
      let w := Z.land (1812433253 * Z.lxor prev (Z.shiftr prev 30) + i) mask32 in
      w :: init_words n' w (i + 1)
  end.

Definition init_genrand (s : Z) : list Z :=
  let w0 := Z.land s mask32 in
  w0 :: init_words 623 w0 1.

(** The state: the last 624 words of the recurrence, oldest first (numpy's
    [key] array read from [pos]), and the cached second normal deviate. *)
Record RandomState : Type := mkState {
  key : list Z;
  gauss : option Q
}.

Definition seed (s : Z) : RandomState :=
  {| key := init_genrand s; gauss := None |}.

Definition twist (x0 x1 xm : Z) : Z :=
  let y := Z.lor (Z.land x0 2147483648) (Z.land x1 2147483647) in
  Z.lxor (Z.lxor xm (Z.shiftr y 1)) (if Z.odd y then 2567483615 else 0).

Definition temper (y : Z) : Z :=
  let y := Z.lxor y (Z.shiftr y 11) in
  let y := Z.lxor y (Z.land (Z.shiftl y 7) 2636928640) in
  let y := Z.lxor y (Z.land (Z.shiftl y 15) 4022730752) in
  Z.lxor y (Z.shiftr y 18).

(** [genrand_int32] *)
Definition next_uint32 (st : RandomState) : Z * RandomState :=
  let k := key st in
  let n := twist (nth 0 k 0) (nth 1 k 0) (nth 397 k 0) in
  (temper n, {| key := tl k ++ [n]; gauss := gauss st |}).

(** Smallest all-ones bit mask that covers [rng]. *)
Definition gen_mask (rng : Z) : Z := Z.ones (Z.log2 rng + 1).

(** [while ((val = next_uint32 & mask) > rng);] *)
Fixpoint bounded_masked (fuel : nat) (rng mask : Z) (st : RandomState)
  : option (Z * RandomState) :=
  match fuel with
  | O => None
  | S fuel' =>
      let (w, st') := next_uint32 st in
      let val := Z.land w mask in
      if val <=? rng then Some (val, st')
      else bounded_masked fuel' rng mask st'
  end.

(** One element of [randint(low, high)]: [low + val], [val] in [0, high-low-1]. *)
Definition randint1 (fuel : nat) (low high : Z) (st : RandomState)
  : option (Z * RandomState) :=
  let rng := high - low - 1 in
  if rng =? 0 then Some (low, st)
  else
    match bounded_masked fuel rng (gen_mask rng) st with
    | Some (val, st') => Some (low + val, st')
    | None => None
    end.

(** *** Draws as a state-and-failure monad over the global state *)

Definition Rand (A : Type) : Type := RandomState -> option (A * RandomState).

Definition ret {A} (a : A) : Rand A := fun st => Some (a, st).

Definition bind {A B} (c : Rand A) (k : A -> Rand B) : Rand B :=
  fun st => match c st with
            | Some (a, st') => k a st'
            | None => None
            end.

Declare Scope rand_scope.
Delimit Scope rand_scope with rand.
Notation "x <- c ;; k" := (bind c (fun x => k))
  (at level 61, c at next level, right associativity) : rand_scope.
Open Scope rand_scope.

(** [size=n]: the array is filled element by element, in index order. *)
Fixpoint fill {A} (n : nat) (c : Rand A) : Rand (list A) :=
  match n with
  | O => ret []
  | S n' => x <- c ;; xs <- fill n' c ;; ret (x :: xs)
  end.

Definition randint (fuel : nat) (low high : Z) (size : nat) : Rand (list Z) :=
  fill size (randint1 fuel low high).

(** [mt19937_next_double]: 53 random bits out of two words. *)
Definition next_double : Rand Q :=
  fun st =>
    let (a, st1) := next_uint32 st in
    let (b, st2) := next_uint32 st1 in
    Some (inject_Z (Z.shiftr a 5 * 67108864 + Z.shiftr b 6) / 9007199254740992, st2)%Q.

(** [random_uniform]: [low + (high - low) * next_double]. *)
Definition uniform1 (low high : Q) : Rand Q :=
  u <- next_double ;; ret (low + (high - low) * u)%Q.

Definition uniform (low high : Q) (size : nat) : Rand (list Q) :=
  fill size (uniform1 low high).

(** [choice(a, size)] without weights: [a[randint(0, len(a), size)]]. *)
Definition choice1 {A} (fuel : nat) (a : list A) : Rand A :=
  match a with
  | [] => fun _ => None
  | d :: _ =>
      idx <- randint1 fuel 0 (Z.of_nat (List.length a)) ;;
      ret (nth (Z.to_nat idx) a d)
  end.

Definition choice {A} (fuel : nat) (a : list A) (size : nat) : Rand (list A) :=
  fill size (choice1 fuel a).

(** The C library's [sqrt] and [log] on doubles, which have no exact rational
    arithmetic: two functions of the platform, left uninterpreted. *)
Record Libm : Type := mkLibm {
  libm_sqrt : Q -> Q;
  libm_log : Q -> Q
}.

Section Normal.

Variable M : Libm.

(** The rejection loop of [legacy_gauss]: a point of the open unit disc,
    off the origin. *)
Fixpoint polar (fuel : nat) : Rand (Q * Q * Q) :=
  match fuel with
  | O => fun _ => None
  | S fuel' =>
      u1 <- next_double ;;
      u2 <- next_double ;;
      let x1 := (2 * u1 - 1)%Q in
      let x2 := (2 * u2 - 1)%Q in
      let r2 := (x1 * x1 + x2 * x2)%Q in
      if Qle_bool 1 r2 || Qeq_bool r2 0 then polar fuel'
      else ret (x1, x2, r2)
  end.

(** [legacy_gauss]: the cached deviate if there is one, else a fresh pair of
    which the second is returned and the first kept. *)
Definition legacy_gauss (fuel : nat) : Rand Q :=
  fun st =>
    match gauss st with
    | Some g => Some (g, {| key := key st; gauss := None |})
    | None =>
        match polar fuel st with
        | Some ((x1, x2, r2), st') =>
            let f := libm_sqrt M (-2 * libm_log M r2 / r2)%Q in
            Some ((f * x2)%Q, {| key := key st'; gauss := Some (f * x1)%Q |})
        | None => None
        end
    end.

(** [normal(loc, scale)]: [loc + scale * legacy_gauss]. *)
Definition normal1 (fuel : nat) (loc scale : Q) : Rand Q :=
  g <- legacy_gauss fuel ;; ret (loc + scale * g)%Q.

Definition normal (fuel : nat) (loc scale : Q) (size : nat) : Rand (list Q) :=
  fill size (normal1 fuel loc scale).

End Normal.

End NpRandom.

(** ** The table *)

Inductive Regiao : Type := Norte | Nordeste | Sudeste | Sul | Centro_Oeste.

Definition Regiao_eqb (a b : Regiao) : bool :=
  match a, b with
  | Norte, Norte | Nordeste, Nordeste | Sudeste, Sudeste
  | Sul, Sul | Centro_Oeste, Centro_Oeste => true
  | _, _ => false
  end.

(** One row of [dados], with the columns in the order the script creates them. *)
Record Municipio : Type := mkMunicipio {
  codigo_ibge : Z;
  municipio : string;
  populacao_total : Z;
  populacao_60_mais : Z;
  pib_per_capita : Q;
  idh : Q;
  regiao : Regiao;
  densidade_demografica : Q;
  percentual_idosos : Q;
  internacoes_por_1000 : Q;
  procedimentos_por_1000 : Q;
  gasto_internacao_per_capita : Q;
  procedimentos_alta_complexidade : Q
}.

Definition DataFrame : Type := list Municipio.

(** Element-wise arithmetic of [Series] and arrays of one length. *)
Module Series.

Fixpoint zip_with {A B C} (f : A -> B -> C) (xs : list A) (ys : list B) : list C :=
  match xs, ys with
  | x :: xs', y :: ys' => f x y :: zip_with f xs' ys'
  | _, _ => []
  end.

Definition add (a b : list Q) : list Q := zip_with Qplus a b.
Definition div (a b : list Q) : list Q := zip_with Qdiv a b.
Definition mul_scalar (a : list Q) (c : Q) : list Q := map (fun x => x * c)%Q a.
Definition div_scalar (a : list Q) (c : Q) : list Q := map (fun x => x / c)%Q a.
Definition of_ints (a : list Z) : list Q := map inject_Z a.

End Series.

(** The thirteen columns of the finished table. *)
Record Columns : Type := mkColumns {
  c_codigo_ibge : list Z;
  c_municipio : list string;
  c_populacao_total : list Z;
  c_populacao_60_mais : list Z;
  c_pib_per_capita : list Q;
  c_idh : list Q;
  c_regiao : list Regiao;
  c_densidade_demografica : list Q;
  c_percentual_idosos : list Q;
  c_internacoes_por_1000 : list Q;
  c_procedimentos_por_1000 : list Q;
  c_gasto_internacao_per_capita : list Q;
  c_procedimentos_alta_complexidade : list Q
}.

Definition row_at (c : Columns) (i : nat) : Municipio :=
  {| codigo_ibge := nth i (c_codigo_ibge c) 0;
     municipio := nth i (c_municipio c) EmptyString;
     populacao_total := nth i (c_populacao_total c) 0;
     populacao_60_mais := nth i (c_populacao_60_mais c) 0;
     pib_per_capita := nth i (c_pib_per_capita c) 0%Q;
     idh := nth i (c_idh c) 0%Q;
     regiao := nth i (c_regiao c) Norte;
     densidade_demografica := nth i (c_densidade_demografica c) 0%Q;
     percentual_idosos := nth i (c_percentual_idosos c) 0%Q;
     internacoes_por_1000 := nth i (c_internacoes_por_1000 c) 0%Q;
     procedimentos_por_1000 := nth i (c_procedimentos_por_1000 c) 0%Q;
     gasto_internacao_per_capita := nth i (c_gasto_internacao_per_capita c) 0%Q;
     procedimentos_alta_complexidade :=
       nth i (c_procedimentos_alta_complexidade c) 0%Q |}.

Definition same_length (n : nat) (c : Columns) : bool :=
  (List.length (c_codigo_ibge c) =? n)%nat
  && (List.length (c_municipio c) =? n)%nat
  && (List.length (c_populacao_total c) =? n)%nat
  && (List.length (c_populacao_60_mais c) =? n)%nat
  && (List.length (c_pib_per_capita c) =? n)%nat
  && (List.length (c_idh c) =? n)%nat
  && (List.length (c_regiao c) =? n)%nat
  && (List.length (c_densidade_demografica c) =? n)%nat
  && (List.length (c_percentual_idosos c) =? n)%nat
  && (List.length (c_internacoes_por_1000 c) =? n)%nat
  && (List.length (c_procedimentos_por_1000 c) =? n)%nat
  && (List.length (c_gasto_internacao_per_capita c) =? n)%nat
  && (List.length (c_procedimentos_alta_complexidade c) =? n)%nat.

(** Rows of a table given by columns; pandas raises on columns of different
    lengths, here [None]. *)
Definition frame (n : nat) (c : Columns) : option DataFrame :=
  if same_length n c then Some (map (row_at c) (seq 0 n)) else None.

(** ** The generator, lines 66-114 *)

Import NpRandom.

Definition str_of_nat (i : nat) : string :=
  NilZero.string_of_uint (Nat.to_uint i).

Definition regioes_brasil : list Regiao :=
  [Norte; Nordeste; Sudeste; Sul; Centro_Oeste].

Definition n_municipios : nat := 200.

(** [range(start, start + n)] *)
Definition range (start : Z) (n : nat) : list Z :=
  map (fun i => start + Z.of_nat i) (seq 0 n).

Section Gerador.

Variable M : Libm.
Variable fuel : nat.

(** [np.random.seed(42)] overwrites the global state, whatever it was. *)
Definition np_random_seed (s : Z) : Rand unit := fun _ => Some (tt, seed s).

Definition lift {A} (o : option A) : Rand A :=
  fun st => match o with Some a => Some (a, st) | None => None end.

Definition carregar_dados_completos : Rand DataFrame :=
  _ <- np_random_seed 42 ;;
  let n := n_municipios in
  let codigo := range 100000 n in
  let nome := map (fun i => ("Município " ++ str_of_nat i)%string) (seq 1 n) in
  pop <- randint fuel 10000 800000 n ;;
  pop60 <- randint fuel 1000 150000 n ;;
  pib <- uniform 8000 45000 n ;;
  idh_ <- uniform (5 # 10) (9 # 10) n ;;
  reg <- choice fuel regioes_brasil n ;;
  dens <- uniform 10 500 n ;;
  let pct :=
    Series.mul_scalar (Series.div (Series.of_ints pop60) (Series.of_ints pop)) 100 in
  ruido1 <- normal M fuel 0 10 n ;;
  let intern :=
    Series.add (Series.add (Series.mul_scalar pct 2) ruido1)
               (Series.div_scalar pib 1000) in
  ruido2 <- normal M fuel 0 20 n ;;
  let proced :=
    Series.add (Series.add (Series.div_scalar pib 200) ruido2)
               (Series.mul_scalar pct (15 # 10)) in
  ruido3 <- normal M fuel 0 100 n ;;
  let gasto := Series.add (Series.mul_scalar intern 50) ruido3 in
  let alta :=
    Series.add (Series.div_scalar pib 300) (Series.mul_scalar pct 2) in
  lift (frame n (mkColumns codigo nome pop pop60 pib idh_ reg dens
                           pct intern proced gasto alta)).

End Gerador.

(** ** A platform to evaluate runs on

    [libm_q] stands in for the C library where a run is evaluated: square root
    by integer square root and logarithm by its series, both in 64-bit fixed
    point, so correct to about 18 decimal places.  No statement below depends
    on these two functions being [sqrt] and [log]. *)

Module LibmQ.

Definition one : Z := 2 ^ 64.

Definition to_fx (q : Q) : Z := Qnum q * one / Zpos (Qden q).
Definition of_fx (v : Z) : Q := v # (Z.to_pos one).

Definition sqrt (q : Q) : Q :=
  if Qle_bool q 0 then 0%Q
  else of_fx (Z.sqrt (Qnum q * one * one / Zpos (Qden q))).

(** [atanh t = t + t^3/3 + t^5/5 + ...], [terms] terms from exponent [k]. *)
Fixpoint atanh_series (terms : nat) (k : Z) (pow t2 : Z) : Z :=
  match terms with
  | O => 0
  | S n => pow / k + atanh_series n (k + 2) (pow * t2 / one) t2
  end.

Definition ln2 : Z := 12786308645202655660.

(** [log] of a fixed-point number at least one:
    [log (m * 2^e) = e * log 2 + 2 * atanh ((m - 1) / (m + 1))]. *)
Definition log_ge1 (v : Z) : Z :=
  let e := Z.log2 v - 64 in
  let m := Z.shiftr v e in
  let t := (m - one) * one / (m + one) in
  e * ln2 + 2 * atanh_series 40 1 t (t * t / one).

Definition log (q : Q) : Q :=
  if Qle_bool q 0 then 0%Q
  else if Qle_bool 1 q then of_fx (log_ge1 (to_fx q))
  else of_fx (- log_ge1 (to_fx (/ q))).

End LibmQ.

Definition libm_q : Libm := mkLibm LibmQ.sqrt LibmQ.log.

(** ** Scalars that can be NaN or infinite *)

Inductive float64 : Type := Fin (q : Q) | PInf | NInf | NaN.

Definition Qlt_bool (a b : Q) : bool := negb (Qle_bool b a).

(** numpy's arithmetic and comparisons on [float64] scalars.  Division by zero
    warns and gives an infinity or NaN, it does not raise; zero is taken as
    positive zero. *)
Module F.

Definition div (x y : float64) : float64 :=
  match x, y with
  | NaN, _ | _, NaN => NaN
  | Fin a, Fin b =>
      if Qeq_bool b 0 then
        if Qeq_bool a 0 then NaN else if Qlt_bool 0 a then PInf else NInf
      else Fin (a / b)
  | Fin _, PInf | Fin _, NInf => Fin 0
  | PInf, Fin b => if Qlt_bool b 0 then NInf else PInf
  | NInf, Fin b => if Qlt_bool b 0 then PInf else NInf
  | PInf, PInf | PInf, NInf | NInf, PInf | NInf, NInf => NaN
  end.

Definition mul_inf (a : Q) (pos : bool) : float64 :=
  if Qeq_bool a 0 then NaN
  else if Bool.eqb (Qlt_bool 0 a) pos then PInf else NInf.

Definition mul (x y : float64) : float64 :=
  match x, y with
  | NaN, _ | _, NaN => NaN
  | Fin a, Fin b => Fin (a * b)
  | Fin a, PInf | PInf, Fin a => mul_inf a true
  | Fin a, NInf | NInf, Fin a => mul_inf a false
  | PInf, PInf | NInf, NInf => PInf
  | PInf, NInf | NInf, PInf => NInf
  end.

Definition sqrt (M : NpRandom.Libm) (x : float64) : float64 :=
  match x with
  | Fin q => if Qlt_bool q 0 then NaN else Fin (NpRandom.libm_sqrt M q)
  | PInf => PInf
  | NInf | NaN => NaN
  end.

(** [x <= y]; any comparison with NaN is false. *)
Definition leb (x y : float64) : bool :=
  match x, y with
  | NaN, _ | _, NaN => false
  | NInf, _ | _, PInf => true
  | Fin a, Fin b => Qle_bool a b
  | PInf, _ | _, NInf => false
  end.

Definition ltb (x y : float64) : bool :=
  match x, y with
  | NaN, _ | _, NaN => false
  | _, _ => negb (leb y x)
  end.

Definition gtb (x y : float64) : bool := ltb y x.
Definition geb (x y : float64) : bool := leb y x.

(** [np.clip(x, lo, hi)]: NaN passes through. *)
Definition clip (x lo hi : float64) : float64 :=
  if ltb x lo then lo else if ltb hi x then hi else x.

End F.

(** ** Series and frames: what the script uses of pandas *)

Definition col {A} (f : Municipio -> A) (df : DataFrame) : list A := map f df.

Module Mask.

(** [s.isin(values)] *)
Definition isin (s : list Regiao) (values : list Regiao) : list bool :=
  map (fun v => existsb (Regiao_eqb v) values) s.

(** [s >= x] and [s <= x] *)
Definition ge (s : list Q) (x : float64) : list bool :=
  map (fun v => F.geb (Fin v) x) s.
Definition le (s : list Q) (x : float64) : list bool :=
  map (fun v => F.leb (Fin v) x) s.

(** [a & b] *)
Definition and (a b : list bool) : list bool := Series.zip_with andb a b.

(** [df[mask]]: the rows whose mask entry is [True], in the order of [df]. *)
Fixpoint getitem {A} (df : list A) (mask : list bool) : list A :=
  match df, mask with
  | r :: df', b :: mask' =>
      if b then r :: getitem df' mask' else getitem df' mask'
  | _, _ => []
  end.

End Mask.

Definition total (xs : list Q) : Q := fold_right Qplus 0%Q xs.

Definition Qlen {A} (xs : list A) : Q := inject_Z (Z.of_nat (List.length xs)).

(** [s.mean()]: NaN for an empty series. *)
Definition mean (xs : list Q) : float64 :=
  match xs with
  | [] => NaN
  | _ :: _ => Fin (total xs / Qlen xs)
  end.

(** ** The filter stage, lines 144-150 *)

Definition df_filtrado (df : DataFrame) (regioes : list Regiao)
    (faixa_idosos faixa_pib : Q * Q) : DataFrame :=
  Mask.getitem df
    (Mask.and
       (Mask.and
          (Mask.and
             (Mask.and
                (Mask.isin (col regiao df) regioes)
                (Mask.ge (col percentual_idosos df) (Fin (fst faixa_idosos))))
             (Mask.le (col percentual_idosos df) (Fin (snd faixa_idosos))))
          (Mask.ge (col pib_per_capita df) (Fin (fst faixa_pib))))
       (Mask.le (col pib_per_capita df) (Fin (snd faixa_pib)))).

(** ** Size classes, lines 314-318 *)

Inductive Porte : Type := Pequeno | Medio | Grande | Metropole.

(** [bins.searchsorted(x, side='left')] on increasing [bins]: the number of
    bins below [x]. *)
Definition searchsorted_left (bins : list float64) (x : float64) : nat :=
  List.length (filter (fun b => F.ltb b x) bins).

(** One value through [pd.cut(x, bins, labels=labels)], with pandas' defaults
    [right=True], [include_lowest=False]: the label of the interval
    [(bins[i], bins[i+1]]] that holds [x], and NaN ([None]) outside them. *)
Definition cut1 {L} (bins : list float64) (labels : list L) (x : float64)
  : option L :=
  let ids := searchsorted_left bins x in
  match x with
  | NaN => None
  | _ =>
      if (ids =? List.length bins)%nat || (ids =? 0)%nat then None
      else nth_error labels (ids - 1)
  end.

Definition pd_cut {L} (xs : list float64) (bins : list float64) (labels : list L)
  : list (option L) :=
  map (cut1 bins labels) xs.

Definition bins_porte : list float64 :=
  [Fin 0; Fin 20000; Fin 100000; Fin 500000; PInf].

Definition labels_porte : list Porte := [Pequeno; Medio; Grande; Metropole].

Definition of_int (z : Z) : float64 := Fin (inject_Z z).

(** The column [df_filtrado['porte']]. *)
Definition porte (df : DataFrame) : list (option Porte) :=
  pd_cut (map of_int (col populacao_total df)) bins_porte labels_porte.

(** The class of one municipality of [populacao_total = pt]. *)
Definition porte_de (pt : Z) : option Porte :=
  cut1 bins_porte labels_porte (of_int pt).

(** ** Quantiles and the two cohorts, lines 358-362 *)

Fixpoint insert_sorted (x : Q) (l : list Q) : list Q :=
  match l with
  | [] => [x]
  | y :: l' => if Qle_bool x y then x :: l else y :: insert_sorted x l'
  end.

Definition sorted_values (l : list Q) : list Q := fold_right insert_sorted [] l.

(** numpy's [_lerp]: [a + (b - a) * t], computed from [b] once [t >= 0.5]. *)
Definition lerp (a b t : Q) : Q :=
  if Qlt_bool t (1 # 2) then (a + (b - a) * t)%Q
  else (b - (b - a) * (1 - t))%Q.

(** [s.quantile(q)] for [0 <= q <= 1], linear interpolation between the two
    order statistics around position [(n - 1) * q]; NaN for an empty series. *)
Definition quantile (xs : list Q) (q : Q) : float64 :=
  match xs with
  | [] => NaN
  | x0 :: _ =>
      let arr := sorted_values xs in
      let n := List.length xs in
      let virtual := ((Qlen xs - 1) * q)%Q in
      let gamma := (virtual - inject_Z (Qfloor virtual))%Q in
      if Qle_bool (Qlen xs - 1) virtual then
        let last := nth (n - 1) arr x0 in
        Fin (lerp last last gamma)
      else
        let previous := Z.to_nat (Qfloor virtual) in
        Fin (lerp (nth previous arr x0) (nth (S previous) arr x0) gamma)
  end.

Definition limite_alto (df : DataFrame) : float64 :=
  quantile (col percentual_idosos df) (75 # 100).

Definition limite_baixo (df : DataFrame) : float64 :=
  quantile (col percentual_idosos df) (25 # 100).

Definition alto_idosos (df : DataFrame) : DataFrame :=
  Mask.getitem df (Mask.ge (col percentual_idosos df) (limite_alto df)).

Definition baixo_idosos (df : DataFrame) : DataFrame :=
  Mask.getitem df (Mask.le (col percentual_idosos df) (limite_baixo df)).

(** The two ratios of cohort means in the insights box, lines 426-427. *)
Definition razao_internacoes (df : DataFrame) : float64 :=
  F.div (mean (col internacoes_por_1000 (alto_idosos df)))
        (mean (col internacoes_por_1000 (baixo_idosos df))).

Definition razao_gastos (df : DataFrame) : float64 :=
  F.div (mean (col gasto_internacao_per_capita (alto_idosos df)))
        (mean (col gasto_internacao_per_capita (baixo_idosos df))).

(** ** Correlations, lines 213 and 408-410 *)

Definition dot (a b : list Q) : Q := total (Series.zip_with Qmult a b).

(** The mean of a row in exact arithmetic, to evaluate correlations with. *)
Definition average_q (xs : list Q) : Q := (total xs / Qlen xs)%Q.

Section Correlacao.

Variable M : NpRandom.Libm.

(** [np.average] of a row as the platform computes it in binary64: the sum
    accumulated in numpy's order, every step rounded, over the length.  It is
    the platform's, like [sqrt]: the mean of [0.1, 0.1, 0.1] so computed is
    not 0.1, and nothing is assumed of it here. *)
Variable average : list Q -> Q.

(** [a.corr(b)] for two columns of one frame: NaN on no rows, otherwise
    [np.corrcoef(a, b)[0, 1]], that is the covariance with [ddof = 1] of the
    deviations from the computed means, divided by the two standard
    deviations and clipped to [[-1, 1]]. *)
Definition corr (a b : list Q) : float64 :=
  match a with
  | [] => NaN
  | _ :: _ =>
      let n := Qlen a in
      let da := map (fun x => x - average a)%Q a in
      let db := map (fun y => y - average b)%Q b in
      let w := F.div (Fin 1) (Fin (n - 1)) in
      let c01 := F.mul (Fin (dot da db)) w in
      let c00 := F.mul (Fin (dot da da)) w in
      let c11 := F.mul (Fin (dot db db)) w in
      F.clip (F.div (F.div c01 (F.sqrt M c00)) (F.sqrt M c11)) (Fin (-1)) (Fin 1)
  end.

Definition correlacao (df : DataFrame) : float64 :=
  corr (col percentual_idosos df) (col internacoes_por_1000 df).

Definition correl_idosos_intern (df : DataFrame) : float64 :=
  corr (col percentual_idosos df) (col internacoes_por_1000 df).

Definition correl_pib_proced (df : DataFrame) : float64 :=
  corr (col pib_per_capita df) (col procedimentos_por_1000 df).

Definition correl_idosos_complexo (df : DataFrame) : float64 :=
  corr (col percentual_idosos df) (col procedimentos_alta_complexidade df).

End Correlacao.

(** ** What is shown, lines 214 and 413-428 *)

Definition str_of_Z (z : Z) : string :=
  NilZero.string_of_uint (N.to_uint (Z.to_N z)).

Fixpoint zeros (n : nat) : string :=
  match n with
  | O => EmptyString
  | S n' => String "0" (zeros n')
  end.

Definition zfill (width : nat) (s : string) : string :=
  (zeros (width - String.length s) ++ s)%string.

Definition round_half_even (q : Q) : Z :=
  let f := Qfloor q in
  let r := (q - inject_Z f)%Q in
  if Qlt_bool r (1 # 2) then f
  else if Qlt_bool (1 # 2) r then f + 1
  else if Z.even f then f else f + 1.

(** [f"{x:.{d}f}"]: fixed point with [d] decimals; the float's own text for
    NaN and the infinities. *)
Definition format_f (d : nat) (x : float64) : string :=
  match x with
  | NaN => "nan"
  | PInf => "inf"
  | NInf => "-inf"
  | Fin q =>
      let p := 10 ^ Z.of_nat d in
      let n := round_half_even (Qabs q * inject_Z p) in
      ((if Qlt_bool q 0 then "-" else "")
       ++ str_of_Z (n / p)
       ++ (match d with
           | O => ""
           | S _ => "." ++ zfill d (str_of_Z (n mod p))
           end))%string
  end.

(** The finding under the first correlation, line 418. *)
Definition achado_pnahp (c : float64) : string :=
  if F.gtb c (Fin (5 # 10)) then "✅ Forte influência positiva"
  else if F.gtb c (Fin (3 # 10)) then "📊 Moderada influência"
  else "📉 Fraca influência".

(** The finding under the second correlation, line 422. *)
Definition achado_pnaes (c : float64) : string :=
  if F.gtb c (Fin (3 # 10)) then "💰 Municípios mais ricos têm mais acesso"
  else "⚖️ Pouca relação com riqueza".

(** The values the insights box interpolates, in the order of its text. *)
Definition insights (M : NpRandom.Libm) (average : list Q -> Q)
    (df : DataFrame) : list string :=
  [ format_f 3 (correl_idosos_intern M average df);
    achado_pnahp (correl_idosos_intern M average df);
    format_f 3 (correl_pib_proced M average df);
    achado_pnaes (correl_pib_proced M average df);
    format_f 3 (correl_idosos_complexo M average df);
    (format_f 1 (razao_internacoes df) ++ "x")%string;
    (format_f 1 (razao_gastos df) ++ "x")%string ].

(** The metric under the first scatter plot, line 214. *)
Definition metric_correlacao (M : NpRandom.Libm) (average : list Q -> Q)
    (df : DataFrame) : string :=
  format_f 3 (correlacao M average df).

(** ** Row-wise reading of the generator

    Row [i] as the column expressions of lines 73-112 give it, from the nine
    drawn arrays. *)
Definition linha (i : nat) (pop pop60 : list Z) (pib idh_ : list Q)
    (reg : list Regiao) (dens ruido1 ruido2 ruido3 : list Q) : Municipio :=
  let pct := (inject_Z (nth i pop60 0%Z) / inject_Z (nth i pop 0%Z) * 100)%Q in
  let intern := (pct * 2 + nth i ruido1 0 + nth i pib 0 / 1000)%Q in
  {| codigo_ibge := 100000 + Z.of_nat i;
     municipio := ("Município " ++ str_of_nat (S i))%string;
     populacao_total := nth i pop 0;
     populacao_60_mais := nth i pop60 0;
     pib_per_capita := nth i pib 0%Q;
     idh := nth i idh_ 0%Q;
     regiao := nth i reg Norte;
     densidade_demografica := nth i dens 0%Q;
     percentual_idosos := pct;
     internacoes_por_1000 := intern;
     procedimentos_por_1000 :=
       (nth i pib 0 / 200 + nth i ruido2 0 + pct * (15 # 10))%Q;
     gasto_internacao_per_capita := (intern * 50 + nth i ruido3 0)%Q;
     procedimentos_alta_complexidade := (nth i pib 0 / 300 + pct * 2)%Q |}.

(** The nine draws of one run, each started in the state the one before it
    left, the first in the state [seed 42] left. *)
Definition sorteios (M : Libm) (fuel : nat) (pop pop60 : list Z)
    (pib idh_ : list Q) (reg : list Regiao) (dens ruido1 ruido2 ruido3 : list Q)
    (final : RandomState) : Prop :=
  exists s1 s2 s3 s4 s5 s6 s7 s8,
    randint fuel 10000 800000 n_municipios (seed 42) = Some (pop, s1)
    /\ randint fuel 1000 150000 n_municipios s1 = Some (pop60, s2)
    /\ uniform 8000 45000 n_municipios s2 = Some (pib, s3)
    /\ uniform (5 # 10) (9 # 10) n_municipios s3 = Some (idh_, s4)
    /\ choice fuel regioes_brasil n_municipios s4 = Some (reg, s5)
    /\ uniform 10 500 n_municipios s5 = Some (dens, s6)
    /\ normal M fuel 0 10 n_municipios s6 = Some (ruido1, s7)
    /\ normal M fuel 0 20 n_municipios s7 = Some (ruido2, s8)
    /\ normal M fuel 0 100 n_municipios s8 = Some (ruido3, final).

(** ** The formulas as the specification writes them *)

Module Spec.

Definition pct_elderly (population_elderly population_total : Z) : Q :=
  (100 * inject_Z population_elderly / inject_Z population_total)%Q.

Definition hospitalizations_per_1000 (pct_elderly noise gdp_per_capita : Q) : Q :=
  (2 * pct_elderly + noise + gdp_per_capita / 1000)%Q.

Definition procedures_per_1000 (gdp_per_capita noise pct_elderly : Q) : Q :=
  (gdp_per_capita / 200 + noise + (15 # 10) * pct_elderly)%Q.

Definition hospitalization_spend_per_capita
    (hospitalizations_per_1000 noise : Q) : Q :=
  (50 * hospitalizations_per_1000 + noise)%Q.

Definition high_complexity_procedures (gdp_per_capita pct_elderly : Q) : Q :=
  (gdp_per_capita / 300 + 2 * pct_elderly)%Q.

(** A record passes the filter: every criterion holds, bounds included. *)
Definition satisfies (regions : list Regiao) (pct_range gdp_range : Q * Q)
    (r : Municipio) : Prop :=
  In (regiao r) regions
  /\ (fst pct_range <= percentual_idosos r)%Q
  /\ (percentual_idosos r <= snd pct_range)%Q
  /\ (fst gdp_range <= pib_per_capita r)%Q
  /\ (pib_per_capita r <= snd gdp_range)%Q.

(** A metric is shown as not applicable: what is shown for it is shown for no
    number. *)
Definition rendered_not_applicable {T} (render : float64 -> T) (x : float64)
  : Prop :=
  forall q, render x <> render (Fin q).

End Spec.

(** A column without variance as the program sees it: no value departs from
    the mean the platform computes for it. *)
Definition sem_desvio (average : list Q -> Q) (xs : list Q) : Prop :=
  Forall (fun x => x == average xs)%Q xs.

(** A scalar that is no number: NaN or an infinity. *)
Definition indefinido (x : float64) : Prop :=
  x = NaN \/ x = PInf \/ x = NInf.

(** The same five criteria decided on one row. *)
Definition satisfaz (regioes : list Regiao) (faixa_idosos faixa_pib : Q * Q)
    (r : Municipio) : bool :=
  existsb (Regiao_eqb (regiao r)) regioes
  && Qle_bool (fst faixa_idosos) (percentual_idosos r)
  && Qle_bool (percentual_idosos r) (snd faixa_idosos)
  && Qle_bool (fst faixa_pib) (pib_per_capita r)
  && Qle_bool (pib_per_capita r) (snd faixa_pib).

(** ** One run, evaluated

    The run on [libm_q] with 64 iterations allowed per rejection loop, started
    from the state an earlier [seed(0)] would have left. *)
Definition amostra : option (DataFrame * RandomState) :=
  Eval vm_compute in carregar_dados_completos libm_q 64 (seed 0).

Definition dados_amostra : DataFrame :=
  match amostra with Some (df, _) => df | None => [] end.

Definition estado_amostra : RandomState :=
  match amostra with Some (_, st) => st | None => seed 0 end.

(** A second platform, with the identity for [sqrt] and [q - 1] for [log], and
    a second run, on it, with 100 iterations allowed and started from the
    state an earlier [seed(7)] would have left. *)
Definition libm_linear : Libm := mkLibm (fun q => q) (fun q => q - 1)%Q.

Definition amostra_linear : option (DataFrame * RandomState) :=
  Eval vm_compute in carregar_dados_completos libm_linear 100 (seed 7).

Definition dados_linear : DataFrame :=
  match amostra_linear with Some (df, _) => df | None => [] end.

Definition estado_linear : RandomState :=
  match amostra_linear with Some (_, st) => st | None => seed 7 end.

(** Three settings of the sidebar on that table: the defaults; no region
    selected; and the percentage slider narrowed to [17.39, 17.40]. *)
Definition filtro_padrao : DataFrame :=
  df_filtrado dados_amostra regioes_brasil (5, 25)%Q (10000, 40000)%Q.

Definition filtro_vazio : DataFrame :=
  df_filtrado dados_amostra [] (5, 25)%Q (10000, 40000)%Q.

Definition filtro_unitario : DataFrame :=
  df_filtrado dados_amostra regioes_brasil (1739 # 100, 1740 # 100)%Q
    (10000, 40000)%Q.

(** A scalar that is zero or NaN. *)
Definition zero_or_nan (x : float64) : Prop :=
  x = NaN \/ exists z, x = Fin z /\ (z == 0)%Q.

(** ** The sidebar, lines 123-141 *)

(** [s.unique()]: the values in the order of their first appearance. *)
Fixpoint unique (l : list Regiao) : list Regiao :=
  match l with
  | [] => []
  | x :: l' => x :: filter (fun y => negb (Regiao_eqb x y)) (unique l')
  end.

Definition Qmin_b (a b : Q) : Q := if Qle_bool a b then a else b.
Definition Qmax_b (a b : Q) : Q := if Qle_bool a b then b else a.

(** [s.min()] and [s.max()]: NaN for an empty series. *)
Definition serie_min (xs : list Q) : float64 :=
  match xs with
  | [] => NaN
  | x :: xs' => Fin (fold_left Qmin_b xs' x)
  end.

Definition serie_max (xs : list Q) : float64 :=
  match xs with
  | [] => NaN
  | x :: xs' => Fin (fold_left Qmax_b xs' x)
  end.

(** The options of the region multiselect, which are its default too, and the
    ends of the two sliders. *)
Definition regioes_opcoes (df : DataFrame) : list Regiao :=
  unique (col regiao df).

Definition limites_faixa_idosos (df : DataFrame) : float64 * float64 :=
  (serie_min (col percentual_idosos df), serie_max (col percentual_idosos df)).

Definition limites_faixa_pib (df : DataFrame) : float64 * float64 :=
  (serie_min (col pib_per_capita df), serie_max (col pib_per_capita df)).

(** ** The four cards, lines 155-181 *)

(** [str(z)] *)
Definition str_of_int (z : Z) : string :=
  if z <? 0 then String "-" (str_of_Z (- z)) else str_of_Z z.

(** A comma after every third digit, on digits given lowest first. *)
Fixpoint group3 (ds : list ascii) : list ascii :=
  match ds with
  | a :: b :: c :: rest =>
      match rest with
      | [] => ds
      | _ :: _ => a :: b :: c :: ","%char :: group3 rest
      end
  | _ => ds
  end.

Definition thousands (digits : string) : string :=
  string_of_list_ascii (rev (group3 (rev (list_ascii_of_string digits)))).

(** [f"{z:,}"] *)
Definition format_int_grouped (z : Z) : string :=
  if z <? 0 then String "-" (thousands (str_of_Z (- z)))
  else thousands (str_of_Z z).

(** [f"{x:,.0f}"] *)
Definition format_f0_grouped (x : float64) : string :=
  match x with
  | NaN => "nan"
  | PInf => "inf"
  | NInf => "-inf"
  | Fin q =>
      ((if Qlt_bool q 0 then "-" else "")
       ++ thousands (str_of_Z (round_half_even (Qabs q))))%string
  end.

(** [s.replace(a, b)] for one-character [a] and [b]. *)
Fixpoint replace_char (a b : ascii) (s : string) : string :=
  match s with
  | EmptyString => EmptyString
  | String c s' =>
      String (if Ascii.eqb c a then b else c) (replace_char a b s')
  end.

(** "Municípios Analisados": the count, and the delta when rows were
    filtered out. *)
Definition card_municipios (df df_filtrado : DataFrame) : string * option string :=
  let n := Z.of_nat (List.length df_filtrado) in
  let todos := Z.of_nat (List.length df) in
  (replace_char "," "." (format_int_grouped n),
   if negb (n =? todos) then Some (str_of_int (n - todos)) else None).

(** "População Média" *)
Definition card_populacao (df_filtrado : DataFrame) : string :=
  replace_char "," "."
    (format_f0_grouped (mean (Series.of_ints (col populacao_total df_filtrado)))).

(** "% Idosos Médio" *)
Definition card_idosos (df_filtrado : DataFrame) : string :=
  (format_f 1 (mean (col percentual_idosos df_filtrado)) ++ "%")%string.

(** "PIB per Capita Médio" *)
Definition card_pib (df_filtrado : DataFrame) : string :=
  replace_char "," "."
    ("R$ " ++ format_f0_grouped (mean (col pib_per_capita df_filtrado)))%string.

(** ** The comparison chart, lines 364-378 *)

Definition comparacao_data (df : DataFrame)
  : list (string * float64 * float64 * float64) :=
  [ ("Alto % Idosos"%string,
     mean (col internacoes_por_1000 (alto_idosos df)),
     mean (col procedimentos_por_1000 (alto_idosos df)),
     mean (col gasto_internacao_per_capita (alto_idosos df)));
    ("Baixo % Idosos"%string,
     mean (col internacoes_por_1000 (baixo_idosos df)),
     mean (col procedimentos_por_1000 (baixo_idosos df)),
     mean (col gasto_internacao_per_capita (baixo_idosos df))) ].

(** 32-bit words, as the generator keeps them. *)
Definition u32 (w : Z) : Prop := Z.land w NpRandom.mask32 = w.

(** Every word of the state is a 32-bit word. *)
Definition key_ok (st : NpRandom.RandomState) : Prop :=
  Forall u32 (NpRandom.key st).

(** Two states that continue one stream: the same words, and a deviate
    cached in both or in neither. *)
Definition same_stream (s1 s2 : RandomState) : Prop :=
  key s1 = key s2 /\ (gauss s1 = None <-> gauss s2 = None).

(** * Properties *)

(** ** Lists and series *)

Lemma zip_with_length {A B C} (f : A -> B -> C) (xs : list A) (ys : list B) :
  List.length xs = List.length ys ->
  List.length (Series.zip_with f xs ys) = List.length xs.
Proof.
  revert ys; induction xs as [|x xs IH]; intros [|y ys] H; simpl in *;
    try discriminate; auto.
Qed.

Lemma nth_zip_with {A B C} (f : A -> B -> C) xs ys i dx dy dz :
  (i < List.length xs)%nat -> (i < List.length ys)%nat ->
  nth i (Series.zip_with f xs ys) dz = f (nth i xs dx) (nth i ys dy).
Proof.
  revert ys i; induction xs as [|x xs IH]; intros [|y ys] [|i] Hx Hy;
    simpl in *; try lia; auto.
  apply IH; lia.
Qed.

Lemma nth_map_lt {A B} (f : A -> B) l i d d' :
  (i < List.length l)%nat -> nth i (map f l) d' = f (nth i l d).
Proof.
  revert i; induction l as [|x l IH]; intros [|i] H; simpl in *; try lia; auto.
  apply IH; lia.
Qed.

Lemma nth_error_map_seq {A} (f : nat -> A) n i :
  (i < n)%nat -> nth_error (map f (seq 0 n)) i = Some (f i).
Proof.
  intros H. rewrite nth_error_map, nth_error_seq.
  destruct (Nat.ltb_spec i n); [reflexivity | lia].
Qed.

Lemma nth_range start n i :
  (i < n)%nat -> nth i (range start n) 0 = start + Z.of_nat i.
Proof.
  intros H. unfold range.
  rewrite (nth_map_lt _ _ _ 0%nat) by (rewrite length_seq; exact H).
  rewrite seq_nth by exact H. reflexivity.
Qed.

(** ** The draw monad *)

Lemma bind_inv {A B} (c : Rand A) (k : A -> Rand B) st r :
  bind c k st = Some r ->
  exists a st', c st = Some (a, st') /\ k a st' = Some r.
Proof.
  unfold bind. destruct (c st) as [[a st']|]; [|discriminate].
  intros H. exists a, st'. auto.
Qed.

Lemma fill_length {A} (c : Rand A) n st xs st' :
  fill n c st = Some (xs, st') -> List.length xs = n.
Proof.
  revert st xs st'; induction n as [|n IH]; intros st xs st' H; simpl in H.
  - inversion H; reflexivity.
  - apply bind_inv in H. destruct H as (x & s1 & _ & H).
    apply bind_inv in H. destruct H as (ys & s2 & Hf & H).
    inversion H; subst. simpl. f_equal. eapply IH; eauto.
Qed.

Lemma fill_Forall {A} (P : A -> Prop) (c : Rand A) :
  (forall st a st', c st = Some (a, st') -> P a) ->
  forall n st xs st', fill n c st = Some (xs, st') -> Forall P xs.
Proof.
  intros Hc. induction n as [|n IH]; intros st xs st' H; simpl in H.
  - inversion H; constructor.
  - apply bind_inv in H. destruct H as (x & s1 & Hx & H).
    apply bind_inv in H. destruct H as (ys & s2 & Hf & H).
    inversion H; subst. constructor; eauto.
Qed.

(** ** Integers by masked rejection *)

Lemma gen_mask_nonneg rng : 0 <= gen_mask rng.
Proof.
  unfold gen_mask. rewrite Z.ones_equiv.
  assert (0 < 2 ^ (Z.log2 rng + 1)).
  { apply Z.pow_pos_nonneg; [lia|]. pose proof (Z.log2_nonneg rng). lia. }
  lia.
Qed.

Lemma bounded_masked_range fuel rng mask st val st' :
  0 <= mask ->
  bounded_masked fuel rng mask st = Some (val, st') -> 0 <= val <= rng.
Proof.
  intros Hm. revert st; induction fuel as [|fuel IH]; intros st H;
    cbn [bounded_masked] in H.
  - discriminate.
  - destruct (next_uint32 st) as [w s1].
    destruct (Z.leb_spec (Z.land w mask) rng) as [Hle|Hgt].
    + inversion H; subst. split; [|exact Hle].
      apply Z.land_nonneg. right. exact Hm.
    + eapply IH; eauto.
Qed.

Lemma randint1_range fuel low high st v st' :
  low < high ->
  randint1 fuel low high st = Some (v, st') -> low <= v < high.
Proof.
  intros Hlh H. unfold randint1 in H.
  destruct (Z.eqb_spec (high - low - 1) 0) as [E|E].
  - inversion H; subst. lia.
  - destruct (bounded_masked fuel (high - low - 1) (gen_mask (high - low - 1)) st)
      as [[val s1]|] eqn:Hb; [|discriminate].
    inversion H; subst.
    apply bounded_masked_range in Hb; [lia | apply gen_mask_nonneg].
Qed.

Lemma randint_range fuel low high n st xs st' :
  low < high ->
  randint fuel low high n st = Some (xs, st') ->
  Forall (fun v => low <= v < high) xs.
Proof.
  intros Hlh. unfold randint. apply fill_Forall.
  intros s a s' H. eapply randint1_range; eauto.
Qed.

(** ** The generator, row by row *)

Lemma lift_inv {A} (o : option A) st a st' :
  lift o st = Some (a, st') -> o = Some a /\ st' = st.
Proof.
  unfold lift. destruct o; intros H; inversion H; auto.
Qed.

Lemma frame_inv n c df :
  frame n c = Some df -> df = map (row_at c) (seq 0 n).
Proof.
  unfold frame. destruct (same_length n c); intros H; inversion H; reflexivity.
Qed.

Ltac series_len :=
  repeat first
    [ assumption
    | rewrite length_map
    | rewrite length_seq
    | progress unfold Series.add, Series.div, Series.mul_scalar, Series.div_scalar,
        Series.of_ints
    | rewrite zip_with_length
    | congruence ].

Ltac series_nth :=
  repeat first
    [ reflexivity
    | progress unfold Series.add, Series.div, Series.mul_scalar, Series.div_scalar,
        Series.of_ints
    | rewrite (nth_zip_with _ _ _ _ 0%Q 0%Q) by series_len
    | rewrite (nth_map_lt _ _ _ 0%Q) by series_len
    | rewrite (nth_map_lt _ _ _ 0%Z) by series_len ].

Lemma row_at_linha i n pop pop60 pib idh_ reg dens r1 r2 r3 :
  (i < n)%nat ->
  List.length pop = n -> List.length pop60 = n -> List.length pib = n ->
  List.length r1 = n -> List.length r2 = n -> List.length r3 = n ->
  row_at
    (mkColumns (range 100000 n)
       (map (fun i => ("Município " ++ str_of_nat i)%string) (seq 1 n))
       pop pop60 pib idh_ reg dens
       (Series.mul_scalar (Series.div (Series.of_ints pop60) (Series.of_ints pop)) 100)
       (Series.add
          (Series.add
             (Series.mul_scalar
                (Series.mul_scalar
                   (Series.div (Series.of_ints pop60) (Series.of_ints pop)) 100) 2)
             r1)
          (Series.div_scalar pib 1000))
       (Series.add
          (Series.add (Series.div_scalar pib 200) r2)
          (Series.mul_scalar
             (Series.mul_scalar
                (Series.div (Series.of_ints pop60) (Series.of_ints pop)) 100)
             (15 # 10)))
       (Series.add
          (Series.mul_scalar
             (Series.add
                (Series.add
                   (Series.mul_scalar
                      (Series.mul_scalar
                         (Series.div (Series.of_ints pop60) (Series.of_ints pop)) 100)
                      2)
                   r1)
                (Series.div_scalar pib 1000))
             50)
          r3)
       (Series.add (Series.div_scalar pib 300)
          (Series.mul_scalar
             (Series.mul_scalar
                (Series.div (Series.of_ints pop60) (Series.of_ints pop)) 100) 2)))
    i
  = linha i pop pop60 pib idh_ reg dens r1 r2 r3.
Proof.
  intros Hi Hpop Hpop60 Hpib Hr1 Hr2 Hr3.
  assert (Hi1 : (i < List.length pop)%nat) by lia.
  assert (Hi2 : (i < List.length pop60)%nat) by lia.
  assert (Hi3 : (i < List.length pib)%nat) by lia.
  assert (Hi4 : (i < List.length r1)%nat) by lia.
  assert (Hi5 : (i < List.length r2)%nat) by lia.
  assert (Hi6 : (i < List.length r3)%nat) by lia.
  unfold row_at, linha; cbn [c_codigo_ibge c_municipio c_populacao_total
    c_populacao_60_mais c_pib_per_capita c_idh c_regiao c_densidade_demografica
    c_percentual_idosos c_internacoes_por_1000 c_procedimentos_por_1000
    c_gasto_internacao_per_capita c_procedimentos_alta_complexidade].
  f_equal.
  - apply nth_range; exact Hi.
  - rewrite (nth_map_lt _ _ _ 0%nat) by (rewrite length_seq; exact Hi).
    rewrite seq_nth by exact Hi. reflexivity.
  - series_nth.
  - series_nth.
  - series_nth.
  - series_nth.
  - series_nth.
Qed.

Local Opaque n_municipios.

Lemma sorteios_length M fuel pop pop60 pib idh_ reg dens r1 r2 r3 final :
  sorteios M fuel pop pop60 pib idh_ reg dens r1 r2 r3 final ->
  List.length pop = n_municipios /\ List.length pop60 = n_municipios
  /\ List.length pib = n_municipios /\ List.length idh_ = n_municipios
  /\ List.length reg = n_municipios /\ List.length dens = n_municipios
  /\ List.length r1 = n_municipios /\ List.length r2 = n_municipios
  /\ List.length r3 = n_municipios.
Proof.
  intros (s1 & s2 & s3 & s4 & s5 & s6 & s7 & s8 &
          H1 & H2 & H3 & H4 & H5 & H6 & H7 & H8 & H9).
  repeat split.
  - exact (fill_length _ _ _ _ _ H1).
  - exact (fill_length _ _ _ _ _ H2).
  - exact (fill_length _ _ _ _ _ H3).
  - exact (fill_length _ _ _ _ _ H4).
  - exact (fill_length _ _ _ _ _ H5).
  - exact (fill_length _ _ _ _ _ H6).
  - exact (fill_length _ _ _ _ _ H7).
  - exact (fill_length _ _ _ _ _ H8).
  - exact (fill_length _ _ _ _ _ H9).
Qed.

(** A run that returns has made the nine draws in the order of the script and
    returns the rows [linha 0 .. linha 199] of what they gave. *)
Lemma carregar_linhas M fuel g df g' :
  carregar_dados_completos M fuel g = Some (df, g') ->
  exists pop pop60 pib idh_ reg dens r1 r2 r3,
    sorteios M fuel pop pop60 pib idh_ reg dens r1 r2 r3 g'
    /\ df = map (fun i => linha i pop pop60 pib idh_ reg dens r1 r2 r3)
              (seq 0 n_municipios).
Proof.
  unfold carregar_dados_completos. intros H.
  apply bind_inv in H. destruct H as ([] & s0 & Hs & H).
  unfold np_random_seed in Hs. inversion Hs; subst s0; clear Hs.
  cbv zeta in H.
  apply bind_inv in H. destruct H as (pop & s1 & H1 & H).
  apply bind_inv in H. destruct H as (pop60 & s2 & H2 & H).
  apply bind_inv in H. destruct H as (pib & s3 & H3 & H).
  apply bind_inv in H. destruct H as (idh_ & s4 & H4 & H).
  apply bind_inv in H. destruct H as (reg & s5 & H5 & H).
  apply bind_inv in H. destruct H as (dens & s6 & H6 & H).
  apply bind_inv in H. destruct H as (r1 & s7 & H7 & H).
  apply bind_inv in H. destruct H as (r2 & s8 & H8 & H).
  apply bind_inv in H. destruct H as (r3 & s9 & H9 & H).
  apply lift_inv in H. destruct H as [Hf ->].
  apply frame_inv in Hf.
  exists pop, pop60, pib, idh_, reg, dens, r1, r2, r3.
  assert (Hs : sorteios M fuel pop pop60 pib idh_ reg dens r1 r2 r3 s9).
  { exists s1, s2, s3, s4, s5, s6, s7, s8.
    exact (conj H1 (conj H2 (conj H3 (conj H4 (conj H5 (conj H6 (conj H7
            (conj H8 H9)))))))). }
  split; [exact Hs|].
  destruct (sorteios_length _ _ _ _ _ _ _ _ _ _ _ _ Hs)
    as (L1 & L2 & L3 & _ & _ & _ & L7 & L8 & L9).
  rewrite Hf. apply map_ext_in. intros i Hi.
  apply in_seq in Hi. apply row_at_linha; try assumption. lia.
Qed.

Lemma carregar_nth M fuel g df g' :
  carregar_dados_completos M fuel g = Some (df, g') ->
  exists pop pop60 pib idh_ reg dens r1 r2 r3,
    sorteios M fuel pop pop60 pib idh_ reg dens r1 r2 r3 g'
    /\ List.length df = n_municipios
    /\ forall i, (i < n_municipios)%nat ->
         nth_error df i = Some (linha i pop pop60 pib idh_ reg dens r1 r2 r3).
Proof.
  intros H. apply carregar_linhas in H.
  destruct H as (pop & pop60 & pib & idh_ & reg & dens & r1 & r2 & r3 & Hs & ->).
  exists pop, pop60, pib, idh_, reg, dens, r1, r2, r3.
  split; [exact Hs|]. split.
  - rewrite length_map, length_seq. reflexivity.
  - intros i Hi.
    exact (nth_error_map_seq
             (fun i => linha i pop pop60 pib idh_ reg dens r1 r2 r3) _ i Hi).
Qed.

(** The run evaluated above. *)
Lemma carregar_amostra :
  carregar_dados_completos libm_q 64 (seed 0)
  = Some (dados_amostra, estado_amostra).
Proof. vm_cast_no_check (@eq_refl _ amostra). Qed.

(** The second run evaluated above. *)
Lemma carregar_linear :
  carregar_dados_completos libm_linear 100 (seed 7)
  = Some (dados_linear, estado_linear).
Proof. vm_cast_no_check (@eq_refl _ amostra_linear). Qed.

Local Transparent n_municipios.

Lemma carregar_In M fuel g df g' r :
  carregar_dados_completos M fuel g = Some (df, g') -> In r df ->
  exists pop pop60 pib idh_ reg dens r1 r2 r3 i,
    sorteios M fuel pop pop60 pib idh_ reg dens r1 r2 r3 g'
    /\ (i < n_municipios)%nat
    /\ r = linha i pop pop60 pib idh_ reg dens r1 r2 r3.
Proof.
  intros H Hr. apply carregar_linhas in H.
  destruct H as (pop & pop60 & pib & idh_ & reg & dens & r1 & r2 & r3 & Hs & ->).
  apply in_map_iff in Hr. destruct Hr as (i & <- & Hi). apply in_seq in Hi.
  exists pop, pop60, pib, idh_, reg, dens, r1, r2, r3, i.
  repeat split; [exact Hs | lia].
Qed.

Lemma Forall_nth_lt {A} (P : A -> Prop) l i d :
  Forall P l -> (i < List.length l)%nat -> P (nth i l d).
Proof.
  intros HF Hi. rewrite Forall_forall in HF. apply HF. apply nth_In. exact Hi.
Qed.

(** ** Percentages *)

Lemma pct_pos a b :
  0 < a -> 0 < b -> (0 < inject_Z a / inject_Z b * 100)%Q.
Proof.
  intros Ha Hb.
  assert (Hb' : (0 < inject_Z b)%Q) by (rewrite (Zlt_Qlt 0 b) in Hb; exact Hb).
  assert (Ha' : (0 < inject_Z a)%Q) by (rewrite (Zlt_Qlt 0 a) in Ha; exact Ha).
  apply Qmult_lt_0_compat; [|reflexivity].
  apply Qlt_shift_div_l; [exact Hb'|]. rewrite Qmult_0_l. exact Ha'.
Qed.

Lemma pct_lt a b c :
  0 < b -> a < c * b -> (inject_Z a / inject_Z b * 100 < inject_Z c * 100)%Q.
Proof.
  intros Hb H.
  assert (Hb' : (0 < inject_Z b)%Q) by (rewrite (Zlt_Qlt 0 b) in Hb; exact Hb).
  apply Qmult_lt_compat_r; [reflexivity|].
  apply Qlt_shift_div_r; [exact Hb'|].
  rewrite <- inject_Z_mult, <- Zlt_Qlt. exact H.
Qed.

Lemma pct_gt a b :
  0 < b -> b < a -> (100 < inject_Z a / inject_Z b * 100)%Q.
Proof.
  intros Hb H.
  assert (Hb' : (0 < inject_Z b)%Q) by (rewrite (Zlt_Qlt 0 b) in Hb; exact Hb).
  assert (E : (100 == 1 * 100)%Q) by reflexivity.
  rewrite E at 1.
  apply Qmult_lt_compat_r; [reflexivity|].
  apply Qlt_shift_div_l; [exact Hb'|].
  rewrite Qmult_1_l, <- Zlt_Qlt. exact H.
Qed.

(** ** C1 *)

(** C1 fails on the generated table itself: the run returns, and its row 15
    (Município 16) has 68172 inhabitants of 60 and over out of 51090
    inhabitants, so [populacao_60_mais <= populacao_total] is false there and
    [percentual_idosos], a share of the population, is above 100.  Lines 76
    and 77 draw the two populations apart, over ranges that overlap. *)
Lemma C1_idosos_acima_do_total :
  exists r,
    carregar_dados_completos libm_q 64 (seed 0)
      = Some (dados_amostra, estado_amostra)
    /\ nth_error dados_amostra 15 = Some r
    /\ populacao_total r = 51090
    /\ populacao_60_mais r = 68172
    /\ ~ (0 <= populacao_60_mais r <= populacao_total r)
    /\ ~ (0 <= percentual_idosos r <= 100)%Q.
Proof.
  destruct (nth_error dados_amostra 15) as [r|] eqn:E; [|discriminate E].
  exists r. split; [exact carregar_amostra|]. split; [reflexivity|].
  vm_compute in E. inversion E; subst r; clear E.
  split; [reflexivity|]. split; [reflexivity|]. split.
  - cbn [populacao_60_mais populacao_total]. lia.
  - cbn [percentual_idosos]. intros [_ H]. vm_compute in H. apply H. reflexivity.
Qed.

(** ** C2 *)

Lemma nth_error_lt_Some {A} (l : list A) i r :
  nth_error l i = Some r -> (i < List.length l)%nat.
Proof. intros H. apply nth_error_Some. congruence. Qed.

(** C2: a run that returns gives 200 rows; its three noise columns are what
    [normal(0, 10, n)], [normal(0, 20, n)] and [normal(0, 100, n)] gave, drawn
    in this order, 200 values each; and every one of the 200 rows carries the
    five derived values the specification's formulas give from its base
    values and its noise, the percentage computed as the quotient times
    100. *)
Theorem C2_formulas_derivadas M fuel g df g' :
  carregar_dados_completos M fuel g = Some (df, g') ->
  List.length df = 200%nat
  /\ exists ruido1 ruido2 ruido3 s6 s7 s8,
    normal M fuel 0 10 n_municipios s6 = Some (ruido1, s7)
    /\ normal M fuel 0 20 n_municipios s7 = Some (ruido2, s8)
    /\ normal M fuel 0 100 n_municipios s8 = Some (ruido3, g')
    /\ List.length ruido1 = 200%nat /\ List.length ruido2 = 200%nat
    /\ List.length ruido3 = 200%nat
    /\ forall i, (i < 200)%nat ->
         exists r, nth_error df i = Some r
         /\ percentual_idosos r
            = (inject_Z (populacao_60_mais r) / inject_Z (populacao_total r)
               * 100)%Q
         /\ (percentual_idosos r ==
               Spec.pct_elderly (populacao_60_mais r) (populacao_total r))%Q
         /\ (internacoes_por_1000 r ==
               Spec.hospitalizations_per_1000 (percentual_idosos r)
                 (nth i ruido1 0) (pib_per_capita r))%Q
         /\ (procedimentos_por_1000 r ==
               Spec.procedures_per_1000 (pib_per_capita r)
                 (nth i ruido2 0) (percentual_idosos r))%Q
         /\ (gasto_internacao_per_capita r ==
               Spec.hospitalization_spend_per_capita (internacoes_por_1000 r)
                 (nth i ruido3 0))%Q
         /\ (procedimentos_alta_complexidade r ==
               Spec.high_complexity_procedures (pib_per_capita r)
                 (percentual_idosos r))%Q.
Proof.
  intros H. apply carregar_nth in H.
  destruct H as (pop & pop60 & pib & idh_ & reg & dens & r1 & r2 & r3
                 & Hs & Hlen & Hnth).
  destruct (sorteios_length _ _ _ _ _ _ _ _ _ _ _ _ Hs)
    as (_ & _ & _ & _ & _ & _ & L7 & L8 & L9).
  destruct Hs as (s1 & s2 & s3 & s4 & s5 & s6 & s7 & s8 &
                  _ & _ & _ & _ & _ & _ & H7 & H8 & H9).
  split; [exact Hlen|].
  exists r1, r2, r3, s6, s7, s8.
  split; [exact H7|]. split; [exact H8|]. split; [exact H9|].
  split; [exact L7|]. split; [exact L8|]. split; [exact L9|].
  intros i Hi. eexists. split; [exact (Hnth i Hi)|].
  unfold linha, Spec.pct_elderly, Spec.hospitalizations_per_1000,
    Spec.procedures_per_1000, Spec.hospitalization_spend_per_capita,
    Spec.high_complexity_procedures;
    cbn [populacao_total populacao_60_mais pib_per_capita percentual_idosos
         internacoes_por_1000 procedimentos_por_1000
         gasto_internacao_per_capita procedimentos_alta_complexidade].
  split; [reflexivity|].
  unfold Qdiv. repeat split; ring.
Qed.

Lemma C2_formulas_derivadas_witness :
  exists r ruido,
    List.length dados_amostra = 200%nat
    /\ nth_error dados_amostra 0 = Some r
    /\ populacao_total r = 131958 /\ populacao_60_mais r = 22959
    /\ percentual_idosos r = (inject_Z 22959 / inject_Z 131958 * 100)%Q
    /\ (percentual_idosos r == Spec.pct_elderly 22959 131958)%Q
    /\ (internacoes_por_1000 r ==
          Spec.hospitalizations_per_1000 (percentual_idosos r) ruido
            (pib_per_capita r))%Q
    /\ (procedimentos_alta_complexidade r ==
          Spec.high_complexity_procedures (pib_per_capita r)
            (percentual_idosos r))%Q.
Proof.
  destruct (C2_formulas_derivadas libm_q 64 (seed 0) dados_amostra estado_amostra
              carregar_amostra)
    as (Hlen & r1 & r2 & r3 & s6 & s7 & s8 & _ & _ & _ & _ & _ & _ & Hrow).
  destruct (Hrow 0%nat ltac:(lia)) as (r & Hr & Hp & Hq & Hi & _ & _ & Ha).
  assert (Hpop : populacao_total r = 131958 /\ populacao_60_mais r = 22959).
  { vm_compute in Hr. injection Hr as <-. split; reflexivity. }
  destruct Hpop as [Hpt Hp60].
  exists r, (nth 0 r1 0%Q).
  split; [exact Hlen|]. split; [exact Hr|].
  split; [exact Hpt|]. split; [exact Hp60|].
  rewrite Hpt, Hp60 in Hp, Hq.
  split; [exact Hp|]. split; [exact Hq|]. split; [exact Hi | exact Ha].
Defined.

(** ** C3 *)

Lemma map_nth_seq_id {A} (l : list A) d :
  map (fun i => nth i l d) (seq 0 (List.length l)) = l.
Proof.
  induction l as [|x l IH]; [reflexivity|].
  cbn [List.length seq map nth]. f_equal.
  rewrite <- seq_shift, map_map. exact IH.
Qed.

Lemma col_linha {A} (f : Municipio -> A) (l : list A) d n
    pop pop60 pib idh_ reg dens r1 r2 r3 :
  List.length l = n ->
  (forall i, f (linha i pop pop60 pib idh_ reg dens r1 r2 r3) = nth i l d) ->
  col f (map (fun i => linha i pop pop60 pib idh_ reg dens r1 r2 r3) (seq 0 n))
  = l.
Proof.
  intros <- Hf. unfold col. rewrite map_map.
  rewrite <- (map_nth_seq_id l d) at 2.
  apply map_ext. exact Hf.
Qed.

(** The seeding comes first, so the state before the call is forgotten. *)
Lemma carregar_estado_anterior M fuel g1 g2 :
  carregar_dados_completos M fuel g1 = carregar_dados_completos M fuel g2.
Proof. reflexivity. Qed.

(** C3: a run that returns a table returns the same 200-row table, and leaves
    the same state, from whatever state a second run starts in; the six base
    columns are the six arrays drawn first, in the order [populacao_total],
    [populacao_60_mais], [pib_per_capita], [idh], [regiao],
    [densidade_demografica], then come the three noise arrays of the derived
    columns, each draw continuing the stream where the one before left it. *)
Theorem C3_determinismo M fuel g1 g2 df st :
  carregar_dados_completos M fuel g1 = Some (df, st) ->
  carregar_dados_completos M fuel g2 = Some (df, st)
  /\ List.length df = 200%nat
  /\ exists ruido1 ruido2 ruido3,
       sorteios M fuel (col populacao_total df) (col populacao_60_mais df)
         (col pib_per_capita df) (col idh df) (col regiao df)
         (col densidade_demografica df) ruido1 ruido2 ruido3 st
       /\ df = map (fun i =>
                 linha i (col populacao_total df) (col populacao_60_mais df)
                   (col pib_per_capita df) (col idh df) (col regiao df)
                   (col densidade_demografica df) ruido1 ruido2 ruido3)
               (seq 0 200).
Proof.
  intros H. split; [rewrite <- H; apply carregar_estado_anterior|].
  apply carregar_linhas in H.
  destruct H as (pop & pop60 & pib & idh_ & reg & dens & r1 & r2 & r3 & Hs & Hdf).
  destruct (sorteios_length _ _ _ _ _ _ _ _ _ _ _ _ Hs)
    as (L1 & L2 & L3 & L4 & L5 & L6 & _).
  assert (E1 : col populacao_total df = pop)
    by (rewrite Hdf; apply (col_linha _ _ 0 _); [exact L1 | reflexivity]).
  assert (E2 : col populacao_60_mais df = pop60)
    by (rewrite Hdf; apply (col_linha _ _ 0 _); [exact L2 | reflexivity]).
  assert (E3 : col pib_per_capita df = pib)
    by (rewrite Hdf; apply (col_linha _ _ 0%Q _); [exact L3 | reflexivity]).
  assert (E4 : col idh df = idh_)
    by (rewrite Hdf; apply (col_linha _ _ 0%Q _); [exact L4 | reflexivity]).
  assert (E5 : col regiao df = reg)
    by (rewrite Hdf; apply (col_linha _ _ Norte _); [exact L5 | reflexivity]).
  assert (E6 : col densidade_demografica df = dens)
    by (rewrite Hdf; apply (col_linha _ _ 0%Q _); [exact L6 | reflexivity]).
  split.
  - rewrite Hdf, length_map, length_seq. reflexivity.
  - exists r1, r2, r3. rewrite E1, E2, E3, E4, E5, E6.
    split; [exact Hs | exact Hdf].
Qed.

Lemma C3_determinismo_witness :
  carregar_dados_completos libm_q 64 (seed 1) = Some (dados_amostra, estado_amostra)
  /\ List.length dados_amostra = 200%nat
  /\ exists ruido1 ruido2 ruido3,
       sorteios libm_q 64 (col populacao_total dados_amostra)
         (col populacao_60_mais dados_amostra)
         (col pib_per_capita dados_amostra) (col idh dados_amostra)
         (col regiao dados_amostra)
         (col densidade_demografica dados_amostra) ruido1 ruido2 ruido3
         estado_amostra
       /\ dados_amostra = map (fun i =>
                 linha i (col populacao_total dados_amostra)
                   (col populacao_60_mais dados_amostra)
                   (col pib_per_capita dados_amostra) (col idh dados_amostra)
                   (col regiao dados_amostra)
                   (col densidade_demografica dados_amostra)
                   ruido1 ruido2 ruido3)
               (seq 0 200).
Proof.
  exact (C3_determinismo libm_q 64 (seed 0) (seed 1) dados_amostra estado_amostra
           carregar_amostra).
Defined.

(** ** The filter stage *)

Lemma getitem_map_filter {A} (f : A -> bool) (l : list A) :
  Mask.getitem l (map f l) = filter f l.
Proof.
  induction l as [|x l IH]; [reflexivity|].
  cbn [map Mask.getitem filter]. rewrite IH. reflexivity.
Qed.

Lemma mask_and_map {A} (f g : A -> bool) (l : list A) :
  Mask.and (map f l) (map g l) = map (fun x => f x && g x) l.
Proof.
  unfold Mask.and. induction l as [|x l IH]; [reflexivity|].
  cbn [map Series.zip_with]. rewrite IH. reflexivity.
Qed.

(** The vectorised masks of lines 144-150, read one row at a time. *)
Lemma df_filtrado_filter df regioes faixa_idosos faixa_pib :
  df_filtrado df regioes faixa_idosos faixa_pib
  = filter (satisfaz regioes faixa_idosos faixa_pib) df.
Proof.
  unfold df_filtrado, Mask.isin, Mask.ge, Mask.le, col.
  rewrite !map_map, !mask_and_map, getitem_map_filter.
  reflexivity.
Qed.

Lemma existsb_Regiao_In x l : existsb (Regiao_eqb x) l = true <-> In x l.
Proof.
  rewrite existsb_exists. split.
  - intros (y & Hy & E). destruct x, y; try discriminate E; exact Hy.
  - intros H. exists x. split; [exact H | destruct x; reflexivity].
Qed.

Lemma satisfaz_spec regioes faixa_idosos faixa_pib r :
  satisfaz regioes faixa_idosos faixa_pib r = true
  <-> Spec.satisfies regioes faixa_idosos faixa_pib r.
Proof.
  unfold satisfaz, Spec.satisfies.
  rewrite !andb_true_iff, existsb_Regiao_In, !Qle_bool_iff. tauto.
Qed.

Lemma filter_idempotent {A} (f : A -> bool) (l : list A) :
  filter f (filter f l) = filter f l.
Proof.
  induction l as [|x l IH]; [reflexivity|].
  cbn [filter]. destruct (f x) eqn:E; [|exact IH].
  cbn [filter]. rewrite E, IH. reflexivity.
Qed.

(** C4: the filtered frame is the frame with the rows that fail a criterion
    struck out, the others staying in place; a row passes exactly when its
    region is one of the selected ones and its [percentual_idosos] and its
    [pib_per_capita] lie in their ranges, ends included. *)
Theorem C4_filtro_conjuncao df regioes faixa_idosos faixa_pib :
  df_filtrado df regioes faixa_idosos faixa_pib
    = filter (satisfaz regioes faixa_idosos faixa_pib) df
  /\ (forall r, satisfaz regioes faixa_idosos faixa_pib r = true
                <-> Spec.satisfies regioes faixa_idosos faixa_pib r)
  /\ (forall r, In r (df_filtrado df regioes faixa_idosos faixa_pib)
                <-> In r df /\ Spec.satisfies regioes faixa_idosos faixa_pib r).
Proof.
  split; [apply df_filtrado_filter|]. split; [apply satisfaz_spec|].
  intros r. rewrite df_filtrado_filter, filter_In, satisfaz_spec. tauto.
Qed.

(** C8: filtering the filtered frame again with the same selection changes
    nothing, neither the rows nor their order. *)
Theorem C8_filtro_idempotente df regioes faixa_idosos faixa_pib :
  df_filtrado (df_filtrado df regioes faixa_idosos faixa_pib)
    regioes faixa_idosos faixa_pib
  = df_filtrado df regioes faixa_idosos faixa_pib.
Proof.
  rewrite !df_filtrado_filter. apply filter_idempotent.
Qed.

(** ** Size classes *)

Lemma Qle_bool_inject a b : Qle_bool (inject_Z a) (inject_Z b) = (a <=? b).
Proof.
  unfold Qle_bool, inject_Z; cbn [Qnum Qden]. rewrite !Z.mul_1_r. reflexivity.
Qed.

Lemma ltb_of_int a b : F.ltb (of_int a) (of_int b) = (a <? b).
Proof.
  unfold F.ltb, F.leb, of_int. rewrite Qle_bool_inject.
  rewrite Z.ltb_antisym. reflexivity.
Qed.

(** [pd.cut] with the bins of line 316, as a chain of comparisons. *)
Lemma porte_de_cases pt :
  porte_de pt =
    if pt <=? 0 then None
    else if pt <=? 20000 then Some Pequeno
    else if pt <=? 100000 then Some Medio
    else if pt <=? 500000 then Some Grande
    else Some Metropole.
Proof.
  unfold porte_de, cut1, searchsorted_left, bins_porte.
  change (Fin 0) with (of_int 0). change (Fin 20000) with (of_int 20000).
  change (Fin 100000) with (of_int 100000).
  change (Fin 500000) with (of_int 500000).
  cbn [filter]. rewrite !ltb_of_int.
  change (F.ltb PInf (of_int pt)) with false.
  change (of_int pt) with (Fin (inject_Z pt)). cbv iota.
  destruct (Z.leb_spec pt 0), (Z.leb_spec pt 20000), (Z.leb_spec pt 100000),
    (Z.leb_spec pt 500000);
    destruct (Z.ltb_spec 0 pt), (Z.ltb_spec 20000 pt), (Z.ltb_spec 100000 pt),
      (Z.ltb_spec 500000 pt); try lia; reflexivity.
Qed.

Lemma porte_map df :
  porte df = map (fun r => porte_de (populacao_total r)) df.
Proof. unfold porte, pd_cut, col, porte_de. rewrite !map_map. reflexivity. Qed.

(** C6: a municipality of positive [populacao_total] gets one class and only
    one: Pequeno up to 20000, Medio above 20000 up to 100000, Grande above
    100000 up to 500000, Metropole above 500000; the column [porte] holds that
    class for every row.  A frame of the single row the generator's formulas
    give for 50000 inhabitants, 10000 of them 60 and over, has
    [percentual_idosos] 20 and [porte] Medio. *)
Theorem C6_porte_classes :
  (forall pt, 0 < pt ->
     exists b, porte_de pt = Some b
       /\ (forall b', porte_de pt = Some b' -> b' = b)
       /\ (b = Pequeno <-> pt <= 20000)
       /\ (b = Medio <-> 20000 < pt <= 100000)
       /\ (b = Grande <-> 100000 < pt <= 500000)
       /\ (b = Metropole <-> 500000 < pt))
  /\ (forall df, porte df = map (fun r => porte_de (populacao_total r)) df)
  /\ (forall pib idh_ reg dens r1 r2 r3,
        let r := linha 0 [50000] [10000] [pib] [idh_] [reg] [dens]
                   [r1] [r2] [r3] in
        populacao_total r = 50000 /\ populacao_60_mais r = 10000
        /\ (percentual_idosos r == 20)%Q
        /\ porte [r] = [Some Medio]).
Proof.
  split; [|split].
  - intros pt Hpt. rewrite porte_de_cases.
    destruct (Z.leb_spec pt 0); [lia|].
    destruct (Z.leb_spec pt 20000); [|destruct (Z.leb_spec pt 100000);
      [|destruct (Z.leb_spec pt 500000)]]; eexists; (split; [reflexivity|]);
      (split; [intros b' E; inversion E; reflexivity|]);
      repeat split; intros; try discriminate; try lia.
  - apply porte_map.
  - intros. subst r. repeat split; reflexivity.
Qed.

Lemma C6_porte_classes_witness :
  exists b, porte_de 50000 = Some b
    /\ (forall b', porte_de 50000 = Some b' -> b' = b)
    /\ (b = Pequeno <-> 50000 <= 20000)
    /\ (b = Medio <-> 20000 < 50000 <= 100000)
    /\ (b = Grande <-> 100000 < 50000 <= 500000)
    /\ (b = Metropole <-> 500000 < 50000).
Proof.
  apply (proj1 C6_porte_classes 50000). lia.
Defined.

(** C9: the column [porte] has one entry for every row, and the entry of a
    row is Pequeno, Medio, Grande or Metropole exactly when its
    [populacao_total] is in (0, 20000], (20000, 100000], (100000, 500000] or
    above 500000, and NaN exactly when it is 0 or below: every breakpoint
    belongs to the class below it, 20000 to Pequeno, 100000 to Medio, 500000
    to Grande, and one more inhabitant moves the row to the next class. *)
Theorem C9_porte_limites df i r :
  nth_error df i = Some r ->
  List.length (porte df) = List.length df
  /\ exists c, nth_error (porte df) i = Some c
       /\ (c = Some Pequeno <-> 0 < populacao_total r <= 20000)
       /\ (c = Some Medio <-> 20000 < populacao_total r <= 100000)
       /\ (c = Some Grande <-> 100000 < populacao_total r <= 500000)
       /\ (c = Some Metropole <-> 500000 < populacao_total r)
       /\ (c = None <-> populacao_total r <= 0)
       /\ (populacao_total r = 20000 -> c = Some Pequeno)
       /\ (populacao_total r = 20001 -> c = Some Medio)
       /\ (populacao_total r = 100000 -> c = Some Medio)
       /\ (populacao_total r = 100001 -> c = Some Grande)
       /\ (populacao_total r = 500000 -> c = Some Grande)
       /\ (populacao_total r = 500001 -> c = Some Metropole).
Proof.
  intros Hr. rewrite porte_map. split; [apply length_map|].
  exists (porte_de (populacao_total r)).
  split; [rewrite nth_error_map, Hr; reflexivity|].
  rewrite porte_de_cases.
  destruct (Z.leb_spec (populacao_total r) 0);
    [|destruct (Z.leb_spec (populacao_total r) 20000);
      [|destruct (Z.leb_spec (populacao_total r) 100000);
        [|destruct (Z.leb_spec (populacao_total r) 500000)]]];
    repeat split; intros; try discriminate; try lia; try reflexivity.
Qed.

Lemma C9_porte_limites_witness :
  exists r1 r2 r3,
    populacao_total r1 = 20000 /\ populacao_total r2 = 100000
    /\ populacao_total r3 = 500000
    /\ porte [r1; r2; r3] = [Some Pequeno; Some Medio; Some Grande].
Proof.
  set (r1 := linha 0 [20000] [3000] [10000%Q] [7 # 10] [Sul] [100%Q]
               [0%Q] [0%Q] [0%Q]).
  set (r2 := linha 0 [100000] [3000] [10000%Q] [7 # 10] [Sul] [100%Q]
               [0%Q] [0%Q] [0%Q]).
  set (r3 := linha 0 [500000] [3000] [10000%Q] [7 # 10] [Sul] [100%Q]
               [0%Q] [0%Q] [0%Q]).
  exists r1, r2, r3.
  split; [reflexivity|]. split; [reflexivity|]. split; [reflexivity|].
  destruct (C9_porte_limites [r1; r2; r3] 0 r1 eq_refl)
    as (_ & c1 & E1 & _ & _ & _ & _ & _ & H1 & _).
  destruct (C9_porte_limites [r1; r2; r3] 1 r2 eq_refl)
    as (_ & c2 & E2 & _ & _ & _ & _ & _ & _ & _ & H2 & _).
  destruct (C9_porte_limites [r1; r2; r3] 2 r3 eq_refl)
    as (Hlen & c3 & E3 & _ & _ & _ & _ & _ & _ & _ & _ & _ & H3 & _).
  rewrite (H1 eq_refl) in E1. rewrite (H2 eq_refl) in E2.
  rewrite (H3 eq_refl) in E3.
  destruct (porte [r1; r2; r3]) as [|a [|b [|c [|d l]]]];
    try discriminate Hlen.
  cbn in E1, E2, E3. congruence.
Defined.

(** ** Quantiles *)

Lemma insert_sorted_In x y l : In y (insert_sorted x l) -> y = x \/ In y l.
Proof.
  induction l as [|z l IH]; cbn [insert_sorted].
  - intros [<-|[]]. left; reflexivity.
  - destruct (Qle_bool x z).
    + intros [<-|H]; [left; reflexivity | right; exact H].
    + intros [<-|H]; [right; left; reflexivity|].
      destruct (IH H) as [->|H']; [left; reflexivity | right; right; exact H'].
Qed.

Lemma sorted_values_In y l : In y (sorted_values l) -> In y l.
Proof.
  induction l as [|x l IH]; cbn [sorted_values fold_right]; [intros []|].
  intros H. apply insert_sorted_In in H. destruct H as [->|H].
  - left; reflexivity.
  - right. apply IH. exact H.
Qed.

Lemma Qlt_bool_iff a b : Qlt_bool a b = true <-> (a < b)%Q.
Proof.
  unfold Qlt_bool. rewrite negb_true_iff. split.
  - intros H. apply Qnot_le_lt. intros C. apply Qle_bool_iff in C. congruence.
  - intros H. destruct (Qle_bool b a) eqn:E; [|reflexivity].
    apply Qle_bool_iff in E. exfalso. exact (Qlt_not_le _ _ H E).
Qed.

Lemma lerp_bounds lo hi a b t :
  (lo <= a <= hi)%Q -> (lo <= b <= hi)%Q -> (0 <= t <= 1)%Q ->
  (lo <= lerp a b t <= hi)%Q.
Proof.
  intros [Ha1 Ha2] [Hb1 Hb2] [Ht1 Ht2]. unfold lerp.
  destruct (Qlt_bool t (1 # 2)); split; nra.
Qed.

Lemma gamma_bounds v : (0 <= v - inject_Z (Qfloor v) <= 1)%Q.
Proof.
  pose proof (Qfloor_le v) as H1. pose proof (Qlt_floor v) as H2.
  rewrite inject_Z_plus in H2. change (inject_Z 1) with 1%Q in H2.
  split; lra.
Qed.

(** A quantile of a non-empty series is a number between the least and the
    greatest of its values. *)
Lemma quantile_bounds xs q lo hi :
  xs <> [] ->
  (forall x, In x xs -> (lo <= x <= hi)%Q) ->
  exists v, quantile xs q = Fin v /\ (lo <= v <= hi)%Q.
Proof.
  intros Hne Hb. destruct xs as [|x0 xs']; [contradiction|].
  set (xs := x0 :: xs') in *.
  assert (Hnth : forall i, (lo <= nth i (sorted_values xs) x0 <= hi)%Q).
  { intros i. destruct (nth_in_or_default i (sorted_values xs) x0) as [H|H].
    - apply Hb. apply sorted_values_In. exact H.
    - rewrite H. apply Hb. left; reflexivity. }
  unfold quantile. fold xs. cbv zeta.
  destruct (Qle_bool (Qlen xs - 1) ((Qlen xs - 1) * q)).
  - eexists. split; [reflexivity|].
    apply lerp_bounds; [apply Hnth | apply Hnth | apply gamma_bounds].
  - eexists. split; [reflexivity|].
    apply lerp_bounds; [apply Hnth | apply Hnth | apply gamma_bounds].
Qed.

(** ** The cohorts *)

Lemma alto_idosos_In df r :
  In r (alto_idosos df)
  <-> In r df /\ F.geb (Fin (percentual_idosos r)) (limite_alto df) = true.
Proof.
  unfold alto_idosos, Mask.ge, col. rewrite map_map, getitem_map_filter.
  apply filter_In.
Qed.

Lemma baixo_idosos_In df r :
  In r (baixo_idosos df)
  <-> In r df /\ F.leb (Fin (percentual_idosos r)) (limite_baixo df) = true.
Proof.
  unfold baixo_idosos, Mask.le, col. rewrite map_map, getitem_map_filter.
  apply filter_In.
Qed.

Lemma col_In {A} (f : Municipio -> A) df x :
  In x (col f df) -> exists r, In r df /\ f r = x.
Proof.
  unfold col. rewrite in_map_iff. intros (r & E & H). exists r. auto.
Qed.

Lemma limites_bounds df lo hi :
  df <> [] ->
  (forall r, In r df -> (lo <= percentual_idosos r <= hi)%Q) ->
  exists qa qb,
    limite_alto df = Fin qa /\ limite_baixo df = Fin qb
    /\ (lo <= qa <= hi)%Q /\ (lo <= qb <= hi)%Q.
Proof.
  intros Hne Hb.
  assert (Hc : col percentual_idosos df <> []).
  { destruct df; [contradiction | discriminate]. }
  assert (Hx : forall x, In x (col percentual_idosos df) -> (lo <= x <= hi)%Q).
  { intros x Hx. apply col_In in Hx. destruct Hx as (r & Hr & <-). auto. }
  destruct (quantile_bounds _ (75 # 100) lo hi Hc Hx) as (qa & Ea & Ba).
  destruct (quantile_bounds _ (25 # 100) lo hi Hc Hx) as (qb & Eb & Bb).
  exists qa, qb. unfold limite_alto, limite_baixo. auto.
Qed.

(** A non-empty frame has a row of greatest and a row of least
    [percentual_idosos]. *)
Lemma extremos df :
  df <> [] ->
  exists rmin rmax, In rmin df /\ In rmax df
    /\ forall r, In r df ->
         (percentual_idosos rmin <= percentual_idosos r)%Q
         /\ (percentual_idosos r <= percentual_idosos rmax)%Q.
Proof.
  induction df as [|x df IH]; [contradiction|]. intros _.
  destruct df as [|y df'].
  - exists x, x. repeat split; try (left; reflexivity);
      destruct H as [<-|[]]; apply Qle_refl.
  - destruct (IH ltac:(discriminate)) as (rmin & rmax & Hmin & Hmax & Hb).
    set (tl := y :: df') in *.
    exists (if Qle_bool (percentual_idosos x) (percentual_idosos rmin)
            then x else rmin),
           (if Qle_bool (percentual_idosos rmax) (percentual_idosos x)
            then x else rmax).
    split; [destruct (Qle_bool _ _); [left; reflexivity | right; exact Hmin]|].
    split; [destruct (Qle_bool _ _); [left; reflexivity | right; exact Hmax]|].
    intros r Hr.
    destruct (Qle_bool (percentual_idosos x) (percentual_idosos rmin)) eqn:E1;
      destruct (Qle_bool (percentual_idosos rmax) (percentual_idosos x)) eqn:E2;
      try apply Qle_bool_iff in E1; try apply Qle_bool_iff in E2;
      try (assert (E1' : (percentual_idosos rmin < percentual_idosos x)%Q)
             by (apply Qlt_bool_iff; unfold Qlt_bool; rewrite E1; reflexivity));
      try (assert (E2' : (percentual_idosos x < percentual_idosos rmax)%Q)
             by (apply Qlt_bool_iff; unfold Qlt_bool; rewrite E2; reflexivity));
      (destruct Hr as [<-|Hr]; [|destruct (Hb r Hr)]); split; lra.
Qed.

(** C10: in a non-empty frame both cohorts have rows: a row of greatest
    [percentual_idosos] is in [alto_idosos], a row of least
    [percentual_idosos] is in [baixo_idosos], and such rows exist; both
    quantiles are numbers between the least and the greatest value of the
    column. *)
Theorem C10_coortes_nao_vazias df :
  df <> [] ->
  alto_idosos df <> [] /\ baixo_idosos df <> []
  /\ (forall r, In r df ->
        (forall r', In r' df -> (percentual_idosos r' <= percentual_idosos r)%Q) ->
        In r (alto_idosos df))
  /\ (forall r, In r df ->
        (forall r', In r' df -> (percentual_idosos r <= percentual_idosos r')%Q) ->
        In r (baixo_idosos df))
  /\ exists qa qb rmin rmax,
       limite_alto df = Fin qa /\ limite_baixo df = Fin qb
       /\ In rmin df /\ In rmax df
       /\ (forall r, In r df ->
             (percentual_idosos rmin <= percentual_idosos r)%Q
             /\ (percentual_idosos r <= percentual_idosos rmax)%Q)
       /\ (percentual_idosos rmin <= qa)%Q /\ (qa <= percentual_idosos rmax)%Q
       /\ (percentual_idosos rmin <= qb)%Q /\ (qb <= percentual_idosos rmax)%Q.
Proof.
  intros Hne.
  destruct (extremos df Hne) as (rmin & rmax & Hmin & Hmax & Hb).
  destruct (limites_bounds df _ _ Hne Hb)
    as (qa & qb & Ea & Eb & [Ba1 Ba2] & [Bb1 Bb2]).
  assert (Halto : forall r, In r df ->
            (forall r', In r' df ->
               (percentual_idosos r' <= percentual_idosos r)%Q) ->
            In r (alto_idosos df)).
  { intros r Hr Hmx. apply alto_idosos_In. split; [exact Hr|].
    rewrite Ea. unfold F.geb, F.leb. apply Qle_bool_iff.
    apply Qle_trans with (percentual_idosos rmax); [exact Ba2 | auto]. }
  assert (Hbaixo : forall r, In r df ->
            (forall r', In r' df ->
               (percentual_idosos r <= percentual_idosos r')%Q) ->
            In r (baixo_idosos df)).
  { intros r Hr Hmn. apply baixo_idosos_In. split; [exact Hr|].
    rewrite Eb. unfold F.leb. apply Qle_bool_iff.
    apply Qle_trans with (percentual_idosos rmin); [auto | exact Bb1]. }
  split.
  { intros E. pose proof (Halto rmax Hmax (fun r' H' => proj2 (Hb r' H'))) as H.
    rewrite E in H. exact H. }
  split.
  { intros E. pose proof (Hbaixo rmin Hmin (fun r' H' => proj1 (Hb r' H'))) as H.
    rewrite E in H. exact H. }
  split; [exact Halto|]. split; [exact Hbaixo|].
  exists qa, qb, rmin, rmax. repeat split; auto; apply Hb; assumption.
Qed.

Lemma filtro_padrao_nao_vazio : filtro_padrao <> [].
Proof.
  intros E. apply (f_equal (@List.length Municipio)) in E.
  vm_compute in E. discriminate E.
Qed.

Lemma C10_coortes_nao_vazias_witness :
  alto_idosos filtro_padrao <> [] /\ baixo_idosos filtro_padrao <> [].
Proof.
  destruct (C10_coortes_nao_vazias filtro_padrao filtro_padrao_nao_vazio)
    as (H1 & H2 & _).
  exact (conj H1 H2).
Defined.

(** ** Division by a zero mean *)

Lemma Qeq_bool_zero z : (z == 0)%Q -> Qeq_bool z 0 = true.
Proof. intros H. apply Qeq_bool_iff. exact H. Qed.

Lemma div_by_zero x z :
  (z == 0)%Q ->
  F.div x (Fin z) =
    match x with
    | Fin a => if Qeq_bool a 0 then NaN else if Qlt_bool 0 a then PInf else NInf
    | PInf => PInf
    | NInf => NInf
    | NaN => NaN
    end.
Proof.
  intros Hz. destruct x as [a| | |]; cbn [F.div];
    try rewrite (Qeq_bool_zero z Hz); try reflexivity.
  - assert (E : Qlt_bool z 0 = false).
    { destruct (Qlt_bool z 0) eqn:E; [|reflexivity].
      apply Qlt_bool_iff in E. rewrite Hz in E. discriminate E. }
    rewrite E. reflexivity.
  - assert (E : Qlt_bool z 0 = false).
    { destruct (Qlt_bool z 0) eqn:E; [|reflexivity].
      apply Qlt_bool_iff in E. rewrite Hz in E. discriminate E. }
    rewrite E. reflexivity.
Qed.

Lemma mean_not_inf xs : mean xs <> PInf /\ mean xs <> NInf.
Proof. destruct xs; split; discriminate. Qed.

Lemma razao_zero (top : list Q) z :
  (z == 0)%Q ->
  F.div (mean top) (Fin z) = NaN \/ F.div (mean top) (Fin z) = PInf
  \/ F.div (mean top) (Fin z) = NInf.
Proof.
  intros Hz. rewrite (div_by_zero _ _ Hz).
  destruct (mean top) as [a| | |]; auto.
  destruct (Qeq_bool a 0); auto. destruct (Qlt_bool 0 a); auto.
Qed.

(** ** C7 *)

(** C7, as stated, fails on a frame of one row: with the percentage slider at
    [17.39, 17.40] the filtered frame is the single row of Município 1, both
    quantiles are its own percentage and the row is in both cohorts. *)
Lemma C7_counterexample :
  exists r q,
    filtro_unitario = [r] /\ codigo_ibge r = 100000
    /\ limite_alto filtro_unitario = Fin q
    /\ limite_baixo filtro_unitario = Fin q
    /\ (q == percentual_idosos r)%Q
    /\ In r (alto_idosos filtro_unitario)
    /\ In r (baixo_idosos filtro_unitario).
Proof.
  destruct filtro_unitario as [|r [|r' l]] eqn:E; try (vm_compute in E; discriminate E).
  exists r. eexists. split; [reflexivity|].
  vm_compute in E. inversion E; subst r; clear E.
  split; [reflexivity|].
  split; [vm_compute; reflexivity|]. split; [vm_compute; reflexivity|].
  split; [vm_compute; reflexivity|].
  split.
  - apply alto_idosos_In. split; [left; reflexivity | vm_compute; reflexivity].
  - apply baixo_idosos_In. split; [left; reflexivity | vm_compute; reflexivity].
Qed.

(** C7, amended: the two cohorts share no row whenever the 0.25 quantile is
    below the 0.75 quantile, and both are empty for an empty frame; when the
    two quantiles are one number, every row at that number is in both.  With a
    bottom-cohort mean of zero each ratio is NaN or an infinity, never a
    finite number. *)
Theorem C7_coortes_disjuntas df :
  (F.ltb (limite_baixo df) (limite_alto df) = true ->
     forall r, In r (alto_idosos df) -> In r (baixo_idosos df) -> False)
  /\ (df = [] -> alto_idosos df = [] /\ baixo_idosos df = [])
  /\ (forall q r, limite_baixo df = Fin q -> limite_alto df = Fin q ->
        In r df -> (percentual_idosos r == q)%Q ->
        In r (alto_idosos df) /\ In r (baixo_idosos df))
  /\ (forall z, mean (col internacoes_por_1000 (baixo_idosos df)) = Fin z ->
        (z == 0)%Q ->
        razao_internacoes df = NaN \/ razao_internacoes df = PInf
        \/ razao_internacoes df = NInf)
  /\ (forall z, mean (col gasto_internacao_per_capita (baixo_idosos df)) = Fin z ->
        (z == 0)%Q ->
        razao_gastos df = NaN \/ razao_gastos df = PInf
        \/ razao_gastos df = NInf).
Proof.
  split; [|split; [|split; [|split]]].
  - intros Hlt r Ha Hb.
    apply alto_idosos_In in Ha. destruct Ha as [_ Ha].
    apply baixo_idosos_In in Hb. destruct Hb as [_ Hb].
    destruct (limite_baixo df) as [qb| | |], (limite_alto df) as [qa| | |];
      cbn in Hlt, Ha, Hb; try discriminate.
    apply Qle_bool_iff in Ha, Hb.
    assert (H : (qb < qa)%Q) by (apply Qlt_bool_iff; exact Hlt).
    lra.
  - intros ->. split; reflexivity.
  - intros q r Eb Ea Hr Hq. split.
    + apply alto_idosos_In. split; [exact Hr|]. rewrite Ea.
      unfold F.geb, F.leb. apply Qle_bool_iff. rewrite Hq. apply Qle_refl.
    + apply baixo_idosos_In. split; [exact Hr|]. rewrite Eb.
      unfold F.leb. apply Qle_bool_iff. rewrite Hq. apply Qle_refl.
  - intros z E Hz. unfold razao_internacoes. rewrite E. apply razao_zero. exact Hz.
  - intros z E Hz. unfold razao_gastos. rewrite E. apply razao_zero. exact Hz.
Qed.

Lemma C7_coortes_disjuntas_witness :
  F.ltb (limite_baixo filtro_padrao) (limite_alto filtro_padrao) = true
  /\ forall r, In r (alto_idosos filtro_padrao) ->
               In r (baixo_idosos filtro_padrao) -> False.
Proof.
  assert (H : F.ltb (limite_baixo filtro_padrao) (limite_alto filtro_padrao)
              = true) by (vm_compute; reflexivity).
  split; [exact H|].
  exact (proj1 (C7_coortes_disjuntas filtro_padrao) H).
Defined.

(** ** Correlations without variance *)

Lemma Qlt_bool_zero_l z : (z == 0)%Q -> Qlt_bool z 0 = false.
Proof.
  intros Hz. destruct (Qlt_bool z 0) eqn:E; [|reflexivity].
  apply Qlt_bool_iff in E. rewrite Hz in E. discriminate E.
Qed.

Lemma mul_zero z w : (z == 0)%Q -> zero_or_nan (F.mul (Fin z) w).
Proof.
  intros Hz. destruct w as [b| | |]; cbn [F.mul]; unfold F.mul_inf;
    try rewrite (Qeq_bool_zero z Hz); try (left; reflexivity).
  right. exists (z * b)%Q. split; [reflexivity|]. rewrite Hz. ring.
Qed.

Lemma sqrt_zero M x :
  (forall z, (z == 0)%Q -> (libm_sqrt M z == 0)%Q) ->
  zero_or_nan x -> zero_or_nan (F.sqrt M x).
Proof.
  intros HM [->|(z & -> & Hz)]; [left; reflexivity|].
  cbn [F.sqrt]. rewrite (Qlt_bool_zero_l z Hz).
  right. eexists. split; [reflexivity | apply HM; exact Hz].
Qed.

Lemma div_zero_any x y : zero_or_nan x -> zero_or_nan (F.div x y).
Proof.
  intros [->|(z & -> & Hz)]; [left; reflexivity|].
  destruct y as [b| | |]; cbn [F.div].
  - destruct (Qeq_bool b 0) eqn:Eb.
    + rewrite (Qeq_bool_zero z Hz). left; reflexivity.
    + right. eexists. split; [reflexivity|]. rewrite Hz.
      unfold Qdiv. ring.
  - right. exists 0%Q. split; reflexivity.
  - right. exists 0%Q. split; reflexivity.
  - left; reflexivity.
Qed.

Lemma div_zero_zero x y : zero_or_nan x -> zero_or_nan y -> F.div x y = NaN.
Proof.
  intros [->|(z & -> & Hz)] [->|(w & -> & Hw)]; try reflexivity.
  cbn [F.div]. rewrite (Qeq_bool_zero w Hw), (Qeq_bool_zero z Hz). reflexivity.
Qed.

Lemma div_any_nan_r x : F.div x NaN = NaN.
Proof. destruct x; reflexivity. Qed.

Lemma clip_nan lo hi : F.clip NaN lo hi = NaN.
Proof. unfold F.clip. destruct lo, hi; reflexivity. Qed.

Lemma total_zero l : Forall (fun x => x == 0)%Q l -> (total l == 0)%Q.
Proof.
  induction 1 as [|x l Hx _ IH]; cbn [total fold_right]; [reflexivity|].
  fold (total l). cbv beta in Hx. rewrite Hx, IH. reflexivity.
Qed.

Lemma dot_zero_l da db : Forall (fun x => x == 0)%Q da -> (dot da db == 0)%Q.
Proof.
  intros H. unfold dot. apply total_zero.
  revert db; induction H as [|x l Hx _ IH]; intros [|y db];
    cbn [Series.zip_with]; constructor; auto.
  cbv beta in Hx. rewrite Hx. ring.
Qed.

Lemma dot_zero_r da db : Forall (fun x => x == 0)%Q db -> (dot da db == 0)%Q.
Proof.
  intros H. unfold dot. apply total_zero.
  revert da; induction H as [|y l Hy _ IH]; intros [|x da];
    cbn [Series.zip_with]; constructor; auto.
  cbv beta in Hy. rewrite Hy. ring.
Qed.

(** Where no value departs from the computed mean, the deviations are all
    zero. *)
Lemma desvios_sem_desvio average l :
  sem_desvio average l ->
  Forall (fun x => x == 0)%Q (map (fun x => x - average l)%Q l).
Proof.
  intros H. apply Forall_map. eapply Forall_impl; [|exact H].
  intros x Hx. cbv beta in *. rewrite Hx. ring.
Qed.

(** A column of fewer than two values, on a platform whose mean of one value
    is that value. *)
Lemma short_sem_desvio average (a : list Q) :
  (forall x, (average [x] == x)%Q) ->
  (List.length a < 2)%nat -> sem_desvio average a.
Proof.
  intros Havg. destruct a as [|x [|y a]]; cbn [List.length]; intros H; try lia.
  - constructor.
  - constructor; [symmetry; apply Havg | constructor].
Qed.

Section CorrNaN.

Variable M : Libm.
Variable average : list Q -> Q.
Hypothesis sqrt_of_zero : forall z, (z == 0)%Q -> (libm_sqrt M z == 0)%Q.

(** The correlation of two columns of one length is NaN when one of them has
    no deviation from its computed mean. *)
Lemma corr_indefinida a b :
  List.length a = List.length b ->
  sem_desvio average a \/ sem_desvio average b ->
  corr M average a b = NaN.
Proof.
  intros Hlen Hc. destruct a as [|x a']; [reflexivity|].
  unfold corr. cbv beta iota zeta.
  set (a := x :: a') in *.
  destruct Hc as [Ha|Hb].
  - pose proof (desvios_sem_desvio average a Ha) as Hda.
    match goal with
    | |- F.clip (F.div (F.div ?c ?sx) ?sy) _ _ = _ =>
        assert (E : F.div c sx = NaN)
    end.
    { apply div_zero_zero.
      - apply mul_zero, dot_zero_l, Hda.
      - apply sqrt_zero; [exact sqrt_of_zero|]. apply mul_zero, dot_zero_l, Hda. }
    rewrite E. cbn [F.div]. apply clip_nan.
  - pose proof (desvios_sem_desvio average b Hb) as Hdb.
    rewrite div_zero_zero; [apply clip_nan | | ].
    + apply div_zero_any, mul_zero, dot_zero_r, Hdb.
    + apply sqrt_zero; [exact sqrt_of_zero|]. apply mul_zero, dot_zero_r, Hdb.
Qed.

End CorrNaN.

Lemma libm_q_sqrt_zero z : (z == 0)%Q -> (libm_sqrt libm_q z == 0)%Q.
Proof.
  intros Hz. cbn [libm_q libm_sqrt]. unfold LibmQ.sqrt.
  assert (E : Qle_bool z 0 = true) by (apply Qle_bool_iff; rewrite Hz; apply Qle_refl).
  rewrite E. reflexivity.
Qed.

Lemma average_q_um x : (average_q [x] == x)%Q.
Proof. unfold average_q, total, Qlen. cbn. field. Qed.

Lemma filtro_vazio_nil : filtro_vazio = [].
Proof. vm_compute. reflexivity. Qed.

(** ** How a number and what is no number are written *)

(** A numeral starts with a digit. *)
Lemma str_of_Z_cabeca z :
  exists c s, str_of_Z z = String c s
    /\ c <> "n"%char /\ c <> "i"%char /\ c <> "-"%char.
Proof.
  unfold str_of_Z, NilZero.string_of_uint.
  destruct (N.to_uint (Z.to_N z)); cbn [NilEmpty.string_of_uint];
    do 2 eexists; (split; [reflexivity|]); repeat split; discriminate.
Qed.

(** The text of a number is not the text of NaN or of an infinity, with or
    without the "x" the ratios are followed by. *)
Lemma format_f_numero d q x :
  indefinido x ->
  format_f d x <> format_f d (Fin q)
  /\ (format_f d x ++ "x")%string <> (format_f d (Fin q) ++ "x")%string.
Proof.
  intros Hx. unfold format_f at 2 4.
  destruct (str_of_Z_cabeca
              (round_half_even (Qabs q * inject_Z (10 ^ Z.of_nat d))
               / 10 ^ Z.of_nat d)) as (c & s & E & Hn & Hi & Hm).
  cbv zeta. rewrite E.
  destruct Hx as [-> | [-> | ->]]; cbn [format_f];
    destruct (Qlt_bool q 0); cbn [append];
    split; intros C; injection C; intros; subst; congruence.
Qed.

(** ** C5 *)

(** C5, as stated, fails with no region selected, and again with the
    percentage slider at [17.39, 17.40]: the filtered frame has no row, or
    one, the correlations are NaN, and under each the box prints the finding
    it prints for a number: "Fraca influência" and "Pouca relação com
    riqueza", the findings of a correlation of 0. *)
Lemma C5_counterexample :
  filtro_vazio = []
  /\ correl_idosos_intern libm_q average_q filtro_vazio = NaN
  /\ correl_pib_proced libm_q average_q filtro_vazio = NaN
  /\ insights libm_q average_q filtro_vazio =
       ["nan"; "📉 Fraca influência"; "nan"; "⚖️ Pouca relação com riqueza";
        "nan"; "nanx"; "nanx"]%string
  /\ List.length filtro_unitario = 1%nat
  /\ insights libm_q average_q filtro_unitario =
       ["nan"; "📉 Fraca influência"; "nan"; "⚖️ Pouca relação com riqueza";
        "nan"; "1.0x"; "1.0x"]%string
  /\ ~ Spec.rendered_not_applicable achado_pnahp
         (correl_idosos_intern libm_q average_q filtro_vazio)
  /\ ~ Spec.rendered_not_applicable achado_pnaes
         (correl_pib_proced libm_q average_q filtro_vazio)
  /\ ~ Spec.rendered_not_applicable achado_pnahp
         (correl_idosos_intern libm_q average_q filtro_unitario).
Proof.
  rewrite filtro_vazio_nil.
  split; [reflexivity|]. split; [reflexivity|]. split; [reflexivity|].
  split; [reflexivity|].
  split; [vm_compute; reflexivity|]. split; [vm_compute; reflexivity|].
  split; [|split].
  - intros H. apply (H 0%Q). reflexivity.
  - intros H. apply (H 0%Q). reflexivity.
  - intros H. apply (H 0%Q). vm_compute. reflexivity.
Qed.

(** C5, amended: on an empty filtered frame every mean, quantile, correlation
    and ratio is NaN; a correlation over fewer than two rows, or with a column
    in which no value departs from its computed mean, is NaN; a ratio over a
    zero bottom-cohort mean is NaN or an infinity; each is computed without
    failing, and what is written for it, "nan", "inf" or "-inf", is written
    for no number.  The finding under a correlation is the exception: for NaN
    it is the finding of a number. *)
Theorem C5_metricas_indefinidas M average :
  (forall z, (z == 0)%Q -> (libm_sqrt M z == 0)%Q) ->
  (forall x, (average [x] == x)%Q) ->
  ((forall f : Municipio -> Q, mean (col f []) = NaN)
   /\ correlacao M average [] = NaN /\ correl_idosos_intern M average [] = NaN
   /\ correl_pib_proced M average [] = NaN
   /\ correl_idosos_complexo M average [] = NaN
   /\ limite_alto [] = NaN /\ limite_baixo [] = NaN
   /\ razao_internacoes [] = NaN /\ razao_gastos [] = NaN
   /\ metric_correlacao M average [] = "nan"%string)
  /\ (forall (f g : Municipio -> Q) df,
        (List.length df < 2)%nat \/ sem_desvio average (col f df)
        \/ sem_desvio average (col g df) ->
        corr M average (col f df) (col g df) = NaN)
  /\ (forall df z,
        mean (col internacoes_por_1000 (baixo_idosos df)) = Fin z -> (z == 0)%Q ->
        indefinido (razao_internacoes df))
  /\ (forall df z,
        mean (col gasto_internacao_per_capita (baixo_idosos df)) = Fin z ->
        (z == 0)%Q ->
        indefinido (razao_gastos df))
  /\ (forall d x, indefinido x ->
        Spec.rendered_not_applicable (format_f d) x
        /\ Spec.rendered_not_applicable
             (fun v => (format_f d v ++ "x")%string) x)
  /\ ~ Spec.rendered_not_applicable achado_pnahp NaN
  /\ ~ Spec.rendered_not_applicable achado_pnaes NaN.
Proof.
  intros HM Havg. split; [|split; [|split; [|split; [|split; [|split]]]]].
  - repeat split; reflexivity.
  - intros f g df Hc.
    apply corr_indefinida; [exact HM | | ].
    + unfold col. rewrite !length_map. reflexivity.
    + destruct Hc as [H|[H|H]]; [left | left; exact H | right; exact H].
      apply short_sem_desvio; [exact Havg|].
      unfold col. rewrite length_map. exact H.
  - intros df z E Hz. unfold razao_internacoes, indefinido. rewrite E.
    apply razao_zero. exact Hz.
  - intros df z E Hz. unfold razao_gastos, indefinido. rewrite E.
    apply razao_zero. exact Hz.
  - intros d x Hx. split; intros q; apply format_f_numero; exact Hx.
  - intros H. apply (H 0%Q). reflexivity.
  - intros H. apply (H 0%Q). reflexivity.
Qed.

Lemma C5_metricas_indefinidas_witness :
  (forall f : Municipio -> Q, mean (col f []) = NaN)
  /\ correl_idosos_intern libm_q average_q [] = NaN
  /\ metric_correlacao libm_q average_q [] = "nan"%string
  /\ corr libm_q average_q (col percentual_idosos filtro_unitario)
       (col internacoes_por_1000 filtro_unitario) = NaN
  /\ Spec.rendered_not_applicable (format_f 3) NaN.
Proof.
  destruct (C5_metricas_indefinidas libm_q average_q libm_q_sqrt_zero
              average_q_um)
    as ((H1 & _ & H2 & _ & _ & _ & _ & _ & _ & H3) & H4 & _ & _ & H5 & _).
  split; [exact H1|]. split; [exact H2|]. split; [exact H3|]. split.
  - apply H4. left. vm_compute. lia.
  - apply (H5 3%nat NaN). left. reflexivity.
Defined.

(** ** Runs return

    The hypothesis of C2 and C3, that the run returns, holds on every platform
    and with every allowance of 64 iterations or more per rejection loop. *)

Lemma bind_Some {A B} (c : Rand A) (k : A -> Rand B) st a st' :
  c st = Some (a, st') -> bind c k st = k a st'.
Proof. intros H. unfold bind. rewrite H. reflexivity. Qed.

(** One draw may be replaced by another that returns whatever it returns. *)
Lemma fill_mono {A} (c c' : Rand A) :
  (forall st r, c st = Some r -> c' st = Some r) ->
  forall n st r, fill n c st = Some r -> fill n c' st = Some r.
Proof.
  intros Hc. induction n as [|n IH]; intros st r H; cbn [fill] in *.
  - exact H.
  - apply bind_inv in H. destruct H as (x & s1 & Hx & H).
    apply bind_inv in H. destruct H as (xs & s2 & Hxs & H).
    rewrite (bind_Some _ _ _ _ _ (Hc _ _ Hx)).
    rewrite (bind_Some _ _ _ _ _ (IH _ _ Hxs)). exact H.
Qed.

Lemma bounded_masked_mono fuel fuel' rng mask st r :
  (fuel <= fuel')%nat ->
  bounded_masked fuel rng mask st = Some r ->
  bounded_masked fuel' rng mask st = Some r.
Proof.
  revert fuel' st; induction fuel as [|fuel IH]; intros fuel' st Hle H;
    cbn [bounded_masked] in H; [discriminate|].
  destruct fuel' as [|fuel']; [lia|]. cbn [bounded_masked].
  destruct (next_uint32 st) as [w s1].
  destruct (Z.land w mask <=? rng); [exact H|].
  apply IH; [lia | exact H].
Qed.

Lemma randint1_mono fuel fuel' low high st r :
  (fuel <= fuel')%nat ->
  randint1 fuel low high st = Some r -> randint1 fuel' low high st = Some r.
Proof.
  intros Hle. unfold randint1.
  destruct (high - low - 1 =? 0); [auto|].
  destruct (bounded_masked fuel _ _ st) as [[v s1]|] eqn:E; [|discriminate].
  rewrite (bounded_masked_mono _ _ _ _ _ _ Hle E). auto.
Qed.

Lemma choice1_mono {A} fuel fuel' (a : list A) st r :
  (fuel <= fuel')%nat ->
  choice1 fuel a st = Some r -> choice1 fuel' a st = Some r.
Proof.
  intros Hle. unfold choice1. destruct a as [|d a]; [auto|].
  intros H. apply bind_inv in H. destruct H as (i & s1 & Hi & H).
  rewrite (bind_Some _ _ _ _ _ (randint1_mono _ _ _ _ _ _ Hle Hi)). exact H.
Qed.

Lemma polar_S fuel st :
  polar (S fuel) st =
    match next_double st with
    | Some (u1, s1) =>
        match next_double s1 with
        | Some (u2, s2) =>
            let x1 := (2 * u1 - 1)%Q in
            let x2 := (2 * u2 - 1)%Q in
            let r2 := (x1 * x1 + x2 * x2)%Q in
            if Qle_bool 1 r2 || Qeq_bool r2 0 then polar fuel s2
            else Some ((x1, x2, r2), s2)
        | None => None
        end
    | None => None
    end.
Proof.
  cbn [polar]. unfold bind.
  destruct (next_double st) as [[u1 s1]|]; [|reflexivity].
  destruct (next_double s1) as [[u2 s2]|]; [|reflexivity].
  cbv zeta. destruct (Qle_bool 1 _ || Qeq_bool _ 0); reflexivity.
Qed.

Lemma polar_mono fuel fuel' st r :
  (fuel <= fuel')%nat -> polar fuel st = Some r -> polar fuel' st = Some r.
Proof.
  revert fuel' st; induction fuel as [|fuel IH]; intros fuel' st Hle H;
    [discriminate H|].
  destruct fuel' as [|fuel']; [lia|].
  rewrite polar_S in H |- *.
  destruct (next_double st) as [[u1 s1]|]; [|discriminate H].
  destruct (next_double s1) as [[u2 s2]|]; [|discriminate H].
  cbv zeta in H |- *.
  destruct (Qle_bool 1 _ || Qeq_bool _ 0); [|exact H].
  apply IH; [lia | exact H].
Qed.

Lemma normal1_mono M fuel fuel' loc scale st r :
  (fuel <= fuel')%nat ->
  normal1 M fuel loc scale st = Some r -> normal1 M fuel' loc scale st = Some r.
Proof.
  intros Hle H. unfold normal1 in *.
  apply bind_inv in H. destruct H as (g & s1 & Hg & H).
  rewrite (bind_Some _ _ _ g s1); [exact H|].
  unfold legacy_gauss in *. destruct (gauss st); [exact Hg|].
  destruct (polar fuel st) as [[[[x1 x2] r2] s2]|] eqn:E; [|discriminate].
  rewrite (polar_mono _ _ _ _ Hle E). exact Hg.
Qed.

Local Opaque n_municipios.

Lemma sorteios_mono M fuel fuel' pop pop60 pib idh_ reg dens r1 r2 r3 final :
  (fuel <= fuel')%nat ->
  sorteios M fuel pop pop60 pib idh_ reg dens r1 r2 r3 final ->
  sorteios M fuel' pop pop60 pib idh_ reg dens r1 r2 r3 final.
Proof.
  intros Hle (s1 & s2 & s3 & s4 & s5 & s6 & s7 & s8 &
              H1 & H2 & H3 & H4 & H5 & H6 & H7 & H8 & H9).
  exists s1, s2, s3, s4, s5, s6, s7, s8.
  pose proof (fun lo hi =>
    fill_mono (randint1 fuel lo hi) (randint1 fuel' lo hi)
      (fun st r => randint1_mono fuel fuel' lo hi st r Hle)) as Mi.
  pose proof (fill_mono (choice1 fuel regioes_brasil)
                (choice1 fuel' regioes_brasil)
                (fun st r => choice1_mono fuel fuel' _ st r Hle)) as Mc.
  pose proof (fun loc scale =>
    fill_mono (normal1 M fuel loc scale) (normal1 M fuel' loc scale)
      (fun st r => normal1_mono M fuel fuel' loc scale st r Hle)) as Mn.
  exact (conj (Mi _ _ _ _ _ H1) (conj (Mi _ _ _ _ _ H2) (conj H3 (conj H4
          (conj (Mc _ _ _ H5) (conj H6 (conj (Mn _ _ _ _ _ H7)
          (conj (Mn _ _ _ _ _ H8) (Mn _ _ _ _ _ H9))))))))).
Qed.

Lemma same_stream_refl s : same_stream s s.
Proof. split; [reflexivity | tauto]. Qed.

Lemma next_double_stream s1 s2 :
  key s1 = key s2 ->
  exists u k',
    next_double s1 = Some (u, mkState k' (gauss s1))
    /\ next_double s2 = Some (u, mkState k' (gauss s2)).
Proof.
  destruct s1 as [k g1], s2 as [k2 g2]. cbn [key gauss]. intros <-.
  eexists. eexists. split; reflexivity.
Qed.

(** The rejection loop of the polar method reads the words only. *)
Lemma polar_stream fuel s1 s2 :
  key s1 = key s2 ->
  (polar fuel s1 = None /\ polar fuel s2 = None)
  \/ exists p k',
       polar fuel s1 = Some (p, mkState k' (gauss s1))
       /\ polar fuel s2 = Some (p, mkState k' (gauss s2)).
Proof.
  revert s1 s2; induction fuel as [|fuel IH]; intros s1 s2 Hk.
  - left. split; reflexivity.
  - rewrite !polar_S.
    destruct (next_double_stream s1 s2 Hk) as (u1 & k1 & E1 & E2).
    rewrite E1, E2.
    destruct (next_double_stream (mkState k1 (gauss s1)) (mkState k1 (gauss s2))
                eq_refl) as (u2 & k2 & E3 & E4).
    rewrite E3, E4. cbn [gauss]. cbv zeta.
    destruct (Qle_bool 1 _ || Qeq_bool _ 0).
    + destruct (IH (mkState k2 (gauss s1)) (mkState k2 (gauss s2)) eq_refl)
        as [[N1 N2]|(p & k' & P1 & P2)].
      * left. split; assumption.
      * right. exists p, k'. split; assumption.
    + right. eexists. exists k2. split; reflexivity.
Qed.

Lemma normal1_stream M1 M2 fuel loc scale s1 s2 v1 t1 :
  same_stream s1 s2 ->
  normal1 M1 fuel loc scale s1 = Some (v1, t1) ->
  exists v2 t2,
    normal1 M2 fuel loc scale s2 = Some (v2, t2) /\ same_stream t1 t2.
Proof.
  intros [Hk Hg] H. unfold normal1, bind, legacy_gauss in *.
  destruct (gauss s1) as [g1|] eqn:G1, (gauss s2) as [g2|] eqn:G2.
  - inversion H; subst. eexists. eexists. split; [reflexivity|].
    split; [exact Hk | cbn; tauto].
  - exfalso. destruct Hg as [_ Hg]. specialize (Hg eq_refl). discriminate.
  - exfalso. destruct Hg as [Hg _]. specialize (Hg eq_refl). discriminate.
  - destruct (polar_stream fuel s1 s2 Hk) as [[N1 N2]|(p & k' & P1 & P2)].
    + rewrite N1 in H. discriminate H.
    + rewrite P1 in H. rewrite P2. destruct p as [[x1 x2] r2].
      inversion H; subst. eexists. eexists. split; [reflexivity|].
      split; [reflexivity | cbn; split; discriminate].
Qed.

Lemma fill_stream {A B} (c1 : Rand A) (c2 : Rand B) :
  (forall s1 s2 v1 t1, same_stream s1 s2 -> c1 s1 = Some (v1, t1) ->
     exists v2 t2, c2 s2 = Some (v2, t2) /\ same_stream t1 t2) ->
  forall n s1 s2 xs t1, same_stream s1 s2 -> fill n c1 s1 = Some (xs, t1) ->
    exists ys t2, fill n c2 s2 = Some (ys, t2) /\ same_stream t1 t2.
Proof.
  intros Hc. induction n as [|n IH]; intros s1 s2 xs t1 Hs H; cbn [fill] in *.
  - inversion H; subst. exists [], s2. split; [reflexivity | exact Hs].
  - apply bind_inv in H. destruct H as (x & u1 & Hx & H).
    apply bind_inv in H. destruct H as (xs' & u2 & Hxs & H).
    inversion H; subst.
    destruct (Hc _ _ _ _ Hs Hx) as (y & w1 & Hy & Hs1).
    destruct (IH _ _ _ _ Hs1 Hxs) as (ys & w2 & Hys & Hs2).
    exists (y :: ys), w2. split; [|exact Hs2].
    rewrite (bind_Some _ _ _ _ _ Hy), (bind_Some _ _ _ _ _ Hys). reflexivity.
Qed.

(** The draws of one platform are matched on any other: the same integers,
    uniforms and regions, and noise arrays drawn from the same words. *)
Lemma sorteios_plataforma M1 M2 fuel pop pop60 pib idh_ reg dens r1 r2 r3 final :
  sorteios M1 fuel pop pop60 pib idh_ reg dens r1 r2 r3 final ->
  exists r1' r2' r3' final',
    sorteios M2 fuel pop pop60 pib idh_ reg dens r1' r2' r3' final'.
Proof.
  intros (s1 & s2 & s3 & s4 & s5 & s6 & s7 & s8 &
          H1 & H2 & H3 & H4 & H5 & H6 & H7 & H8 & H9).
  pose proof (fun loc scale =>
    fill_stream (normal1 M1 fuel loc scale) (normal1 M2 fuel loc scale)
      (normal1_stream M1 M2 fuel loc scale)) as Sn.
  destruct (Sn _ _ _ _ _ _ _ (same_stream_refl s6) H7) as (r1' & t7 & K7 & S7).
  destruct (Sn _ _ _ _ _ _ _ S7 H8) as (r2' & t8 & K8 & S8).
  destruct (Sn _ _ _ _ _ _ _ S8 H9) as (r3' & t9 & K9 & S9).
  exists r1', r2', r3', t9. exists s1, s2, s3, s4, s5, s6, t7, t8.
  exact (conj H1 (conj H2 (conj H3 (conj H4 (conj H5 (conj H6 (conj K7
          (conj K8 K9)))))))).
Qed.

Lemma same_length_true n (c : Columns) :
  List.length (c_codigo_ibge c) = n -> List.length (c_municipio c) = n ->
  List.length (c_populacao_total c) = n ->
  List.length (c_populacao_60_mais c) = n ->
  List.length (c_pib_per_capita c) = n -> List.length (c_idh c) = n ->
  List.length (c_regiao c) = n ->
  List.length (c_densidade_demografica c) = n ->
  List.length (c_percentual_idosos c) = n ->
  List.length (c_internacoes_por_1000 c) = n ->
  List.length (c_procedimentos_por_1000 c) = n ->
  List.length (c_gasto_internacao_per_capita c) = n ->
  List.length (c_procedimentos_alta_complexidade c) = n ->
  same_length n c = true.
Proof.
  intros. unfold same_length.
  repeat match goal with H : _ = n |- _ => rewrite H; clear H end.
  rewrite Nat.eqb_refl. reflexivity.
Qed.

(** The draws determine the run. *)
Lemma carregar_de_sorteios M fuel g pop pop60 pib idh_ reg dens r1 r2 r3 final :
  sorteios M fuel pop pop60 pib idh_ reg dens r1 r2 r3 final ->
  carregar_dados_completos M fuel g
  = Some (map (fun i => linha i pop pop60 pib idh_ reg dens r1 r2 r3)
              (seq 0 n_municipios), final).
Proof.
  intros Hs.
  destruct (sorteios_length _ _ _ _ _ _ _ _ _ _ _ _ Hs)
    as (L1 & L2 & L3 & L4 & L5 & L6 & L7 & L8 & L9).
  destruct Hs as (s1 & s2 & s3 & s4 & s5 & s6 & s7 & s8 &
                  H1 & H2 & H3 & H4 & H5 & H6 & H7 & H8 & H9).
  unfold carregar_dados_completos.
  rewrite (bind_Some _ _ g tt (seed 42) eq_refl). cbv zeta.
  rewrite (bind_Some _ _ _ _ _ H1), (bind_Some _ _ _ _ _ H2),
    (bind_Some _ _ _ _ _ H3), (bind_Some _ _ _ _ _ H4),
    (bind_Some _ _ _ _ _ H5), (bind_Some _ _ _ _ _ H6),
    (bind_Some _ _ _ _ _ H7), (bind_Some _ _ _ _ _ H8),
    (bind_Some _ _ _ _ _ H9).
  unfold lift, frame. rewrite same_length_true;
    cbn [c_codigo_ibge c_municipio c_populacao_total c_populacao_60_mais
         c_pib_per_capita c_idh c_regiao c_densidade_demografica
         c_percentual_idosos c_internacoes_por_1000 c_procedimentos_por_1000
         c_gasto_internacao_per_capita c_procedimentos_alta_complexidade];
    try (unfold range; series_len; fail).
  f_equal. f_equal. apply map_ext_in. intros i Hi. apply in_seq in Hi.
  apply row_at_linha; try assumption. lia.
Qed.

(** Every platform, every earlier state and every allowance of at least 64
    iterations per rejection loop gives a table, and its integer columns are
    those of the run evaluated above. *)
Lemma carregar_retorna M fuel g :
  (64 <= fuel)%nat ->
  exists df st,
    carregar_dados_completos M fuel g = Some (df, st)
    /\ col populacao_total df = col populacao_total dados_amostra
    /\ col populacao_60_mais df = col populacao_60_mais dados_amostra.
Proof.
  intros Hf.
  destruct (carregar_linhas _ _ _ _ _ carregar_amostra)
    as (pop & pop60 & pib & idh_ & reg & dens & r1 & r2 & r3 & Hs & Hdf).
  destruct (sorteios_plataforma libm_q M _ _ _ _ _ _ _ _ _ _ _ Hs)
    as (r1' & r2' & r3' & final' & Hs').
  apply (sorteios_mono _ _ fuel) in Hs'; [|exact Hf].
  destruct (sorteios_length _ _ _ _ _ _ _ _ _ _ _ _ Hs) as (L1 & L2 & _).
  eexists. eexists. split; [apply (carregar_de_sorteios _ _ g _ _ _ _ _ _ _ _ _ _ Hs')|].
  rewrite Hdf. split.
  - rewrite (col_linha populacao_total pop 0 _ _ _ _ _ _ _ _ _ _ L1 (fun i => eq_refl)).
    rewrite (col_linha populacao_total pop 0 _ _ _ _ _ _ _ _ _ _ L1 (fun i => eq_refl)).
    reflexivity.
  - rewrite (col_linha populacao_60_mais pop60 0 _ _ _ _ _ _ _ _ _ _ L2 (fun i => eq_refl)).
    rewrite (col_linha populacao_60_mais pop60 0 _ _ _ _ _ _ _ _ _ _ L2 (fun i => eq_refl)).
    reflexivity.
Qed.

(** On every such run row 15 is the one of the run evaluated above: 68172
    inhabitants of 60 and over out of 51090. *)
Lemma linha_15_em_toda_plataforma M fuel g df st :
  (64 <= fuel)%nat ->
  carregar_dados_completos M fuel g = Some (df, st) ->
  exists r, nth_error df 15 = Some r
    /\ populacao_total r = 51090 /\ populacao_60_mais r = 68172.
Proof.
  intros Hf H.
  destruct (carregar_retorna M fuel g Hf) as (df' & st' & H' & E1 & E2).
  rewrite H in H'. inversion H'; subst df' st'; clear H'.
  assert (N1 : nth_error (col populacao_total df) 15 = Some 51090)
    by (rewrite E1; reflexivity).
  assert (N2 : nth_error (col populacao_60_mais df) 15 = Some 68172)
    by (rewrite E2; reflexivity).
  unfold col in N1, N2. rewrite nth_error_map in N1, N2.
  destruct (nth_error df 15) as [r|]; [|discriminate N1].
  exists r. cbn in N1, N2. inversion N1. inversion N2. auto.
Qed.

(** * Further properties of the script *)

Local Transparent n_municipios.

(** ** Composing filters *)

Lemma filter_filter_andb {A} (f g : A -> bool) (l : list A) :
  filter g (filter f l) = filter (fun x => f x && g x) l.
Proof.
  induction l as [|x l IH]; [reflexivity|].
  cbn [filter]. destruct (f x); cbn [filter andb]; [|exact IH].
  destruct (g x); rewrite IH; reflexivity.
Qed.

Lemma filter_all {A} (f : A -> bool) (l : list A) :
  (forall x, In x l -> f x = true) -> filter f l = l.
Proof.
  induction l as [|x l IH]; intros H; [reflexivity|].
  cbn [filter]. rewrite (H x (or_introl eq_refl)). f_equal.
  apply IH. intros y Hy. apply H. right. exact Hy.
Qed.

Lemma filter_none {A} (f : A -> bool) (l : list A) :
  (forall x, f x = false) -> filter f l = [].
Proof.
  intros H. induction l as [|x l IH]; [reflexivity|].
  cbn [filter]. rewrite H. exact IH.
Qed.

Lemma filter_length_le {A} (f : A -> bool) (l : list A) :
  (List.length (filter f l) <= List.length l)%nat.
Proof.
  induction l as [|x l IH]; [apply le_n|].
  cbn [filter]. destruct (f x); cbn [List.length]; lia.
Qed.

Lemma filter_length_eq {A} (f : A -> bool) (l : list A) :
  List.length (filter f l) = List.length l -> filter f l = l.
Proof.
  induction l as [|x l IH]; [reflexivity|].
  cbn [filter]. destruct (f x); cbn [List.length]; intros H.
  - f_equal. apply IH. lia.
  - pose proof (filter_length_le f l). lia.
Qed.

(** X7: two filters in a row keep the rows that pass both selections, whichever
    is applied first. *)
Theorem filtro_composto df R1 a1 b1 R2 a2 b2 :
  df_filtrado (df_filtrado df R1 a1 b1) R2 a2 b2
    = filter (fun r => satisfaz R1 a1 b1 r && satisfaz R2 a2 b2 r) df
  /\ df_filtrado (df_filtrado df R1 a1 b1) R2 a2 b2
     = df_filtrado (df_filtrado df R2 a2 b2) R1 a1 b1.
Proof.
  rewrite !df_filtrado_filter, !filter_filter_andb. split; [reflexivity|].
  apply filter_ext. intros r. apply andb_comm.
Qed.

(** X5: no region selected, or a range whose upper end is below its lower end:
    the filtered frame is empty. *)
Theorem filtro_sem_linhas df regioes faixa_idosos faixa_pib :
  regioes = [] \/ (snd faixa_idosos < fst faixa_idosos)%Q
  \/ (snd faixa_pib < fst faixa_pib)%Q ->
  df_filtrado df regioes faixa_idosos faixa_pib = [].
Proof.
  intros H. rewrite df_filtrado_filter. apply filter_none. intros r.
  destruct (satisfaz regioes faixa_idosos faixa_pib r) eqn:E; [|reflexivity].
  exfalso. apply satisfaz_spec in E.
  destruct E as (HR & H1 & H2 & H3 & H4).
  destruct H as [->|[H|H]]; [exact HR | lra | lra].
Qed.

Lemma filtro_sem_linhas_witness :
  df_filtrado dados_amostra regioes_brasil (25, 5)%Q (10000, 40000)%Q = [].
Proof.
  apply filtro_sem_linhas. right. left. reflexivity.
Defined.

(** X6: a wider selection keeps every row of a narrower one, and narrowing the
    wider view gives the narrower view. *)
Theorem filtro_alargado df R R' fi fi' fp fp' :
  incl R R' ->
  (fst fi' <= fst fi)%Q -> (snd fi <= snd fi')%Q ->
  (fst fp' <= fst fp)%Q -> (snd fp <= snd fp')%Q ->
  incl (df_filtrado df R fi fp) (df_filtrado df R' fi' fp')
  /\ df_filtrado (df_filtrado df R' fi' fp') R fi fp = df_filtrado df R fi fp.
Proof.
  intros HR H1 H2 H3 H4.
  assert (Himp : forall r, satisfaz R fi fp r = true ->
                           satisfaz R' fi' fp' r = true).
  { intros r E. apply satisfaz_spec in E. apply satisfaz_spec.
    destruct E as (E0 & E1 & E2 & E3 & E4).
    repeat split; [apply HR; exact E0 | lra | lra | lra | lra]. }
  split.
  - intros r Hr. rewrite df_filtrado_filter in *.
    apply filter_In in Hr. apply filter_In. destruct Hr as [Hr E]. auto.
  - rewrite !df_filtrado_filter, filter_filter_andb. apply filter_ext.
    intros r. destruct (satisfaz R fi fp r) eqn:E.
    + rewrite (Himp r E). reflexivity.
    + apply andb_false_r.
Qed.

Lemma filtro_alargado_witness :
  incl filtro_unitario filtro_padrao
  /\ df_filtrado filtro_padrao regioes_brasil (1739 # 100, 1740 # 100)%Q
       (10000, 40000)%Q = filtro_unitario.
Proof.
  apply (filtro_alargado dados_amostra regioes_brasil regioes_brasil
           (1739 # 100, 1740 # 100)%Q (5, 25)%Q (10000, 40000)%Q
           (10000, 40000)%Q).
  - apply incl_refl.
  - vm_compute. discriminate.
  - vm_compute. discriminate.
  - vm_compute. discriminate.
  - vm_compute. discriminate.
Defined.

(** ** The widgets at their widest *)

Lemma unique_In x l : In x l -> In x (unique l).
Proof.
  induction l as [|y l IH]; [intros []|].
  intros [->|H]; cbn [unique]; [left; reflexivity|].
  destruct (Regiao_eqb y x) eqn:E.
  - left. destruct y, x; try discriminate E; reflexivity.
  - right. apply filter_In. split; [apply IH; exact H|]. rewrite E. reflexivity.
Qed.

Lemma fold_min_le_init xs x0 : (fold_left Qmin_b xs x0 <= x0)%Q.
Proof.
  revert x0; induction xs as [|a xs IH]; intros x0; cbn [fold_left].
  - apply Qle_refl.
  - eapply Qle_trans; [apply IH|]. unfold Qmin_b.
    destruct (Qle_bool x0 a) eqn:E; [apply Qle_refl|].
    apply Qlt_le_weak, Qlt_bool_iff. unfold Qlt_bool. rewrite E. reflexivity.
Qed.

Lemma fold_min_le xs x0 y : In y xs -> (fold_left Qmin_b xs x0 <= y)%Q.
Proof.
  revert x0; induction xs as [|a xs IH]; intros x0; [intros []|].
  cbn [fold_left]. intros [->|H]; [|apply IH; exact H].
  eapply Qle_trans; [apply fold_min_le_init|]. unfold Qmin_b.
  destruct (Qle_bool x0 y) eqn:E; [apply Qle_bool_iff; exact E | apply Qle_refl].
Qed.

Lemma fold_max_ge_init xs x0 : (x0 <= fold_left Qmax_b xs x0)%Q.
Proof.
  revert x0; induction xs as [|a xs IH]; intros x0; cbn [fold_left].
  - apply Qle_refl.
  - eapply Qle_trans; [|apply IH]. unfold Qmax_b.
    destruct (Qle_bool x0 a) eqn:E; [apply Qle_bool_iff; exact E | apply Qle_refl].
Qed.

Lemma fold_max_ge xs x0 y : In y xs -> (y <= fold_left Qmax_b xs x0)%Q.
Proof.
  revert x0; induction xs as [|a xs IH]; intros x0; [intros []|].
  cbn [fold_left]. intros [->|H]; [|apply IH; exact H].
  eapply Qle_trans; [|apply fold_max_ge_init]. unfold Qmax_b.
  destruct (Qle_bool x0 y) eqn:E; [apply Qle_refl|].
  apply Qlt_le_weak, Qlt_bool_iff. unfold Qlt_bool. rewrite E. reflexivity.
Qed.

Lemma serie_min_max xs :
  xs <> [] ->
  exists lo hi, serie_min xs = Fin lo /\ serie_max xs = Fin hi
    /\ forall x, In x xs -> (lo <= x <= hi)%Q.
Proof.
  destruct xs as [|x0 xs]; [contradiction|]. intros _.
  eexists. eexists. split; [reflexivity|]. split; [reflexivity|].
  intros x [<-|H]; split.
  - apply fold_min_le_init.
  - apply fold_max_ge_init.
  - apply fold_min_le; exact H.
  - apply fold_max_ge; exact H.
Qed.

(** X4: with every listed region selected and both sliders at their ends, the
    filter keeps the whole frame. *)
Theorem filtro_identidade df :
  df <> [] ->
  exists lo hi plo phi,
    limites_faixa_idosos df = (Fin lo, Fin hi)
    /\ limites_faixa_pib df = (Fin plo, Fin phi)
    /\ df_filtrado df (regioes_opcoes df) (lo, hi) (plo, phi) = df.
Proof.
  intros Hne.
  assert (H1 : col percentual_idosos df <> [])
    by (destruct df; [contradiction | discriminate]).
  assert (H2 : col pib_per_capita df <> [])
    by (destruct df; [contradiction | discriminate]).
  destruct (serie_min_max _ H1) as (lo & hi & E1 & E2 & B1).
  destruct (serie_min_max _ H2) as (plo & phi & E3 & E4 & B2).
  exists lo, hi, plo, phi. unfold limites_faixa_idosos, limites_faixa_pib.
  rewrite E1, E2, E3, E4. split; [reflexivity|]. split; [reflexivity|].
  rewrite df_filtrado_filter. apply filter_all. intros r Hr.
  apply satisfaz_spec. unfold Spec.satisfies; cbn [fst snd].
  assert (P1 := B1 (percentual_idosos r) (in_map _ _ _ Hr)).
  assert (P2 := B2 (pib_per_capita r) (in_map _ _ _ Hr)).
  split; [|tauto].
  apply unique_In. apply (in_map regiao _ _ Hr).
Qed.

Lemma dados_amostra_nao_vazio : dados_amostra <> [].
Proof.
  intros E. apply (f_equal (@List.length Municipio)) in E.
  vm_compute in E. discriminate E.
Qed.

Lemma filtro_identidade_witness :
  exists lo hi plo phi,
    limites_faixa_idosos dados_amostra = (Fin lo, Fin hi)
    /\ limites_faixa_pib dados_amostra = (Fin plo, Fin phi)
    /\ df_filtrado dados_amostra (regioes_opcoes dados_amostra) (lo, hi)
         (plo, phi) = dados_amostra.
Proof.
  exact (filtro_identidade dados_amostra dados_amostra_nao_vazio).
Defined.

(** ** The count card *)

(** X9: the delta of "Municípios Analisados" is absent exactly when the filter
    removed nothing; otherwise it is the number of rows removed, written with
    a minus sign. *)
Theorem card_municipios_delta df regioes faixa_idosos faixa_pib :
  (snd (card_municipios df (df_filtrado df regioes faixa_idosos faixa_pib)) = None
   <-> df_filtrado df regioes faixa_idosos faixa_pib = df)
  /\ (forall s,
        snd (card_municipios df (df_filtrado df regioes faixa_idosos faixa_pib))
        = Some s ->
        exists k, 0 < k
          /\ k = Z.of_nat (List.length df)
                 - Z.of_nat (List.length
                               (df_filtrado df regioes faixa_idosos faixa_pib))
          /\ s = String "-" (str_of_Z k))
  /\ (List.length (df_filtrado df regioes faixa_idosos faixa_pib)
      <= List.length df)%nat.
Proof.
  set (v := df_filtrado df regioes faixa_idosos faixa_pib).
  assert (Hle : (List.length v <= List.length df)%nat).
  { subst v. rewrite df_filtrado_filter. apply filter_length_le. }
  unfold card_municipios; cbn [snd].
  split; [|split; [|exact Hle]].
  - destruct (Z.eqb_spec (Z.of_nat (List.length v)) (Z.of_nat (List.length df)))
      as [E|E]; cbn [negb]; split; intros H; try reflexivity; try discriminate.
    + subst v. rewrite df_filtrado_filter in *. apply filter_length_eq. lia.
    + exfalso. apply E. rewrite H. reflexivity.
  - intros s.
    destruct (Z.eqb_spec (Z.of_nat (List.length v)) (Z.of_nat (List.length df)))
      as [E|E]; cbn [negb]; intros H; [discriminate|].
    inversion H; subst s; clear H.
    exists (Z.of_nat (List.length df) - Z.of_nat (List.length v)).
    split; [lia|]. split; [reflexivity|].
    unfold str_of_int.
    destruct (Z.ltb_spec (Z.of_nat (List.length v) - Z.of_nat (List.length df)) 0);
      [|lia].
    f_equal. f_equal. lia.
Qed.

(** ** The comparison chart *)

Lemma coortes_habitadas df :
  df <> [] -> alto_idosos df <> [] /\ baixo_idosos df <> [].
Proof.
  intros Hne.
  destruct (extremos df Hne) as (rmin & rmax & Hmin & Hmax & Hb).
  destruct (limites_bounds df _ _ Hne Hb)
    as (qa & qb & Ea & Eb & [Ba1 Ba2] & [Bb1 Bb2]).
  split.
  - assert (H : In rmax (alto_idosos df)).
    { apply alto_idosos_In. split; [exact Hmax|]. rewrite Ea.
      unfold F.geb, F.leb. apply Qle_bool_iff. exact Ba2. }
    intros E. rewrite E in H. exact H.
  - assert (H : In rmin (baixo_idosos df)).
    { apply baixo_idosos_In. split; [exact Hmin|]. rewrite Eb.
      unfold F.leb. apply Qle_bool_iff. exact Bb1. }
    intros E. rewrite E in H. exact H.
Qed.

Lemma mean_col_Fin (f : Municipio -> Q) df :
  df <> [] -> exists z, mean (col f df) = Fin z.
Proof.
  destruct df as [|r df]; [contradiction|]. intros _.
  eexists. reflexivity.
Qed.

(** X15: the six bars of the comparison chart are numbers as soon as the filtered
    frame has a row, and all six are NaN when it has none. *)
Theorem comparacao_data_numeros df :
  (df <> [] ->
     exists a1 a2 a3 b1 b2 b3,
       comparacao_data df =
         [ ("Alto % Idosos"%string, Fin a1, Fin a2, Fin a3);
           ("Baixo % Idosos"%string, Fin b1, Fin b2, Fin b3) ])
  /\ (df = [] ->
        comparacao_data df =
          [ ("Alto % Idosos"%string, NaN, NaN, NaN);
            ("Baixo % Idosos"%string, NaN, NaN, NaN) ]).
Proof.
  split.
  - intros Hne. destruct (coortes_habitadas df Hne) as [Ha Hb].
    destruct (mean_col_Fin internacoes_por_1000 _ Ha) as (a1 & E1).
    destruct (mean_col_Fin procedimentos_por_1000 _ Ha) as (a2 & E2).
    destruct (mean_col_Fin gasto_internacao_per_capita _ Ha) as (a3 & E3).
    destruct (mean_col_Fin internacoes_por_1000 _ Hb) as (b1 & E4).
    destruct (mean_col_Fin procedimentos_por_1000 _ Hb) as (b2 & E5).
    destruct (mean_col_Fin gasto_internacao_per_capita _ Hb) as (b3 & E6).
    exists a1, a2, a3, b1, b2, b3. unfold comparacao_data.
    rewrite E1, E2, E3, E4, E5, E6. reflexivity.
  - intros ->. reflexivity.
Qed.

Lemma comparacao_data_numeros_witness :
  exists a1 a2 a3 b1 b2 b3,
    comparacao_data filtro_unitario =
      [ ("Alto % Idosos"%string, Fin a1, Fin a2, Fin a3);
        ("Baixo % Idosos"%string, Fin b1, Fin b2, Fin b3) ].
Proof.
  apply (proj1 (comparacao_data_numeros filtro_unitario)).
  intros E. apply (f_equal (@List.length Municipio)) in E.
  vm_compute in E. discriminate E.
Defined.

(** ** One percentage throughout *)

Lemma Qle_bool_comp a a' b b' :
  (a == a')%Q -> (b == b')%Q -> Qle_bool a b = Qle_bool a' b'.
Proof.
  intros Ha Hb.
  destruct (Qle_bool a b) eqn:E1, (Qle_bool a' b') eqn:E2; try reflexivity.
  - apply Qle_bool_iff in E1. rewrite Ha, Hb in E1.
    apply Qle_bool_iff in E1. congruence.
  - apply Qle_bool_iff in E2. rewrite <- Ha, <- Hb in E2.
    apply Qle_bool_iff in E2. congruence.
Qed.

Lemma Qlt_bool_comp a a' b b' :
  (a == a')%Q -> (b == b')%Q -> Qlt_bool a b = Qlt_bool a' b'.
Proof.
  intros Ha Hb. unfold Qlt_bool. rewrite (Qle_bool_comp b b' a a'); auto.
Qed.

Lemma round_half_even_comp q q' :
  (q == q')%Q -> round_half_even q = round_half_even q'.
Proof.
  intros H. unfold round_half_even.
  assert (Ef : Qfloor q = Qfloor q') by (apply Qfloor_comp; exact H).
  rewrite <- Ef.
  assert (Er : (q - inject_Z (Qfloor q) == q' - inject_Z (Qfloor q))%Q)
    by (apply Qplus_comp; [exact H | reflexivity]).
  rewrite (Qlt_bool_comp _ _ _ _ Er (Qeq_refl (1 # 2))).
  rewrite (Qlt_bool_comp _ _ _ _ (Qeq_refl (1 # 2)) Er).
  reflexivity.
Qed.

(** The text of a number depends on its value only. *)
Lemma format_f_comp d q q' :
  (q == q')%Q -> format_f d (Fin q) = format_f d (Fin q').
Proof.
  intros H. unfold format_f.
  rewrite (Qlt_bool_comp q q' 0 0 H (Qeq_refl 0)).
  assert (E : (Qabs q * inject_Z (10 ^ Z.of_nat d)
               == Qabs q' * inject_Z (10 ^ Z.of_nat d))%Q)
    by (apply Qmult_comp; [apply Qabs_wd; exact H | reflexivity]).
  rewrite (round_half_even_comp _ _ E). reflexivity.
Qed.

Lemma razao_um z :
  ~ (z == 0)%Q -> format_f 1 (F.div (Fin z) (Fin z)) = "1.0"%string.
Proof.
  intros Hz. cbn [F.div].
  assert (E : Qeq_bool z 0 = false).
  { destruct (Qeq_bool z 0) eqn:E; [|reflexivity].
    apply Qeq_bool_iff in E. contradiction. }
  rewrite E. rewrite (format_f_comp 1 (z / z) 1); [reflexivity|].
  field. exact Hz.
Qed.

(** X14: when every row has the same [percentual_idosos], as on a frame of one
    row, both cohorts are the whole frame and each ratio of a non-zero mean
    is shown as 1.0. *)
Theorem coortes_percentual_unico df v :
  df <> [] ->
  (forall r, In r df -> (percentual_idosos r == v)%Q) ->
  alto_idosos df = df /\ baixo_idosos df = df
  /\ (forall z, mean (col internacoes_por_1000 df) = Fin z -> ~ (z == 0)%Q ->
        format_f 1 (razao_internacoes df) = "1.0"%string)
  /\ (forall z, mean (col gasto_internacao_per_capita df) = Fin z ->
        ~ (z == 0)%Q ->
        format_f 1 (razao_gastos df) = "1.0"%string).
Proof.
  intros Hne Hv.
  assert (Hb : forall r, In r df -> (v <= percentual_idosos r <= v)%Q).
  { intros r Hr. rewrite (Hv r Hr). split; apply Qle_refl. }
  destruct (limites_bounds df v v Hne Hb)
    as (qa & qb & Ea & Eb & [Ba1 Ba2] & [Bb1 Bb2]).
  assert (Ha : alto_idosos df = df).
  { unfold alto_idosos, Mask.ge, col. rewrite map_map, getitem_map_filter.
    apply filter_all. intros r Hr. rewrite Ea. unfold F.geb, F.leb.
    apply Qle_bool_iff. rewrite (Hv r Hr). exact Ba2. }
  assert (Hx : baixo_idosos df = df).
  { unfold baixo_idosos, Mask.le, col. rewrite map_map, getitem_map_filter.
    apply filter_all. intros r Hr. rewrite Eb. unfold F.leb.
    apply Qle_bool_iff. rewrite (Hv r Hr). exact Bb1. }
  split; [exact Ha|]. split; [exact Hx|]. split.
  - intros z E Hz. unfold razao_internacoes. rewrite Ha, Hx, E.
    apply razao_um. exact Hz.
  - intros z E Hz. unfold razao_gastos. rewrite Ha, Hx, E.
    apply razao_um. exact Hz.
Qed.

Lemma coortes_percentual_unico_witness :
  alto_idosos filtro_unitario = filtro_unitario
  /\ baixo_idosos filtro_unitario = filtro_unitario
  /\ format_f 1 (razao_internacoes filtro_unitario) = "1.0"%string.
Proof.
  assert (Hne : filtro_unitario <> []).
  { intros E. apply (f_equal (@List.length Municipio)) in E.
    vm_compute in E. discriminate E. }
  destruct (coortes_percentual_unico filtro_unitario (2295900 # 131958) Hne)
    as (H1 & H2 & H3 & _).
  - intros r Hr. vm_compute in Hr. destruct Hr as [<-|[]]. reflexivity.
  - split; [exact H1|]. split; [exact H2|].
    destruct (mean (col internacoes_por_1000 filtro_unitario)) as [z| | |] eqn:E;
      try (vm_compute in E; discriminate E).
    apply (H3 z eq_refl). intros Hz. vm_compute in E. inversion E; subst z.
    vm_compute in Hz. discriminate Hz.
Defined.

(** ** Words of the generator stay 32-bit *)

Lemma u32_bits a :
  u32 a <-> forall i, Z.testbit a i = Z.testbit a i && Z.testbit mask32 i.
Proof.
  unfold u32. split.
  - intros H i. rewrite <- H at 1. apply Z.land_spec.
  - intros H. apply Z.bits_inj'. intros i _. rewrite Z.land_spec. symmetry. apply H.
Qed.

Lemma u32_lxor a b : u32 a -> u32 b -> u32 (Z.lxor a b).
Proof.
  rewrite !u32_bits. intros Ha Hb i. rewrite Z.lxor_spec.
  specialize (Ha i). specialize (Hb i).
  destruct (Z.testbit a i), (Z.testbit b i), (Z.testbit mask32 i);
    cbn in *; congruence.
Qed.

Lemma u32_lor a b : u32 a -> u32 b -> u32 (Z.lor a b).
Proof.
  rewrite !u32_bits. intros Ha Hb i. rewrite Z.lor_spec.
  specialize (Ha i). specialize (Hb i).
  destruct (Z.testbit a i), (Z.testbit b i), (Z.testbit mask32 i);
    cbn in *; congruence.
Qed.

Lemma u32_land_r a b : u32 b -> u32 (Z.land a b).
Proof.
  rewrite !u32_bits. intros Hb i. rewrite Z.land_spec.
  specialize (Hb i).
  destruct (Z.testbit a i), (Z.testbit b i), (Z.testbit mask32 i);
    cbn in *; congruence.
Qed.

Lemma u32_range w : u32 w <-> 0 <= w < 4294967296.
Proof.
  unfold u32. change mask32 with (Z.ones 32).
  rewrite Z.land_ones by lia. change (2 ^ 32) with 4294967296. split.
  - intros H. rewrite <- H. apply Z.mod_pos_bound. lia.
  - intros H. apply Z.mod_small. exact H.
Qed.

Lemma u32_shiftr w k : 0 <= k -> u32 w -> u32 (Z.shiftr w k).
Proof.
  intros Hk Hw. apply u32_range in Hw. apply u32_range.
  rewrite Z.shiftr_div_pow2 by exact Hk.
  assert (0 < 2 ^ k) by (apply Z.pow_pos_nonneg; lia).
  split.
  - apply Z.div_pos; lia.
  - apply Z.le_lt_trans with w; [|lia].
    apply Z.div_le_upper_bound; [lia|]. nia.
Qed.

Lemma u32_twist x0 x1 xm : u32 x0 -> u32 x1 -> u32 xm -> u32 (twist x0 x1 xm).
Proof.
  intros H0 H1 Hm. unfold twist. cbv zeta.
  apply u32_lxor; [apply u32_lxor; [exact Hm|]|].
  - apply u32_shiftr; [lia|].
    apply u32_lor; apply u32_land_r; reflexivity.
  - destruct (Z.odd _); reflexivity.
Qed.

Lemma u32_temper y : u32 y -> u32 (temper y).
Proof.
  intros H. unfold temper. cbv zeta.
  assert (H1 : u32 (Z.lxor y (Z.shiftr y 11)))
    by (apply u32_lxor; [exact H | apply u32_shiftr; [lia | exact H]]).
  set (y1 := Z.lxor y (Z.shiftr y 11)) in *.
  assert (H2 : u32 (Z.lxor y1 (Z.land (Z.shiftl y1 7) 2636928640)))
    by (apply u32_lxor; [exact H1 | apply u32_land_r; reflexivity]).
  set (y2 := Z.lxor y1 _) in *.
  assert (H3 : u32 (Z.lxor y2 (Z.land (Z.shiftl y2 15) 4022730752)))
    by (apply u32_lxor; [exact H2 | apply u32_land_r; reflexivity]).
  set (y3 := Z.lxor y2 _) in *.
  apply u32_lxor; [exact H3 | apply u32_shiftr; [lia | exact H3]].
Qed.

Lemma init_words_u32 n prev i : Forall u32 (init_words n prev i).
Proof.
  revert prev i; induction n as [|n IH]; intros prev i; cbn [init_words].
  - constructor.
  - constructor; [apply u32_land_r; reflexivity | apply IH].
Qed.

Lemma seed_ok s : key_ok (seed s).
Proof.
  unfold key_ok, seed, init_genrand; cbn [key].
  constructor; [apply u32_land_r; reflexivity | apply init_words_u32].
Qed.

Lemma nth_u32 k i : Forall u32 k -> u32 (nth i k 0).
Proof.
  intros H. destruct (nth_in_or_default i k 0) as [Hi|Hi].
  - rewrite Forall_forall in H. apply H. exact Hi.
  - rewrite Hi. reflexivity.
Qed.

Lemma next_uint32_ok st w st' :
  key_ok st -> next_uint32 st = (w, st') -> u32 w /\ key_ok st'.
Proof.
  unfold key_ok, next_uint32. intros H E. inversion E; subst; clear E.
  assert (Ht : u32 (twist (nth 0 (key st) 0) (nth 1 (key st) 0)
                          (nth 397 (key st) 0)))
    by (apply u32_twist; apply nth_u32; exact H).
  split; [apply u32_temper; exact Ht|]. cbn [key].
  apply Forall_app. split.
  - destruct (key st) as [|x k]; [constructor|]. inversion H; assumption.
  - constructor; [exact Ht | constructor].
Qed.

(** A double is at least 0 and below 1. *)
Lemma next_double_ok st u st' :
  key_ok st -> next_double st = Some (u, st') ->
  (0 <= u)%Q /\ (u < 1)%Q /\ key_ok st'.
Proof.
  intros H E. unfold next_double in E.
  destruct (next_uint32 st) as [a s1] eqn:E1.
  destruct (next_uint32 s1) as [b s2] eqn:E2.
  destruct (next_uint32_ok _ _ _ H E1) as [Ha H1].
  destruct (next_uint32_ok _ _ _ H1 E2) as [Hb H2].
  inversion E; subst; clear E.
  apply u32_range in Ha, Hb.
  assert (Pa : 0 <= Z.shiftr a 5 < 134217728).
  { rewrite Z.shiftr_div_pow2 by lia. change (2 ^ 5) with 32. split.
    - apply Z.div_pos; lia.
    - apply Z.div_lt_upper_bound; lia. }
  assert (Pb : 0 <= Z.shiftr b 6 < 67108864).
  { rewrite Z.shiftr_div_pow2 by lia. change (2 ^ 6) with 64. split.
    - apply Z.div_pos; lia.
    - apply Z.div_lt_upper_bound; lia. }
  set (n := Z.shiftr a 5 * 67108864 + Z.shiftr b 6).
  assert (Pn : 0 <= n < 9007199254740992) by (subst n; lia).
  split; [|split; [|exact H2]].
  - apply Qle_shift_div_l; [reflexivity|]. rewrite Qmult_0_l.
    rewrite <- (Zle_Qle 0). lia.
  - apply Qlt_shift_div_r; [reflexivity|]. rewrite Qmult_1_l.
    change (9007199254740992%Q) with (inject_Z 9007199254740992).
    rewrite <- Zlt_Qlt. lia.
Qed.

Lemma uniform1_ok low high st v st' :
  (low < high)%Q -> key_ok st -> uniform1 low high st = Some (v, st') ->
  (low <= v)%Q /\ (v < high)%Q /\ key_ok st'.
Proof.
  intros Hlh H E. unfold uniform1 in E.
  apply bind_inv in E. destruct E as (u & s1 & Eu & E).
  inversion E; subst; clear E.
  destruct (next_double_ok _ _ _ H Eu) as (U0 & U1 & Hk).
  split; [|split; [|exact Hk]]; nra.
Qed.

Lemma bounded_masked_ok fuel rng mask st r st' :
  key_ok st -> bounded_masked fuel rng mask st = Some (r, st') -> key_ok st'.
Proof.
  revert st; induction fuel as [|fuel IH]; intros st H E;
    cbn [bounded_masked] in E; [discriminate|].
  destruct (next_uint32 st) as [w s1] eqn:E1.
  destruct (next_uint32_ok _ _ _ H E1) as [_ H1].
  destruct (Z.land w mask <=? rng).
  - inversion E; subst. exact H1.
  - apply (IH s1 H1 E).
Qed.

Lemma randint1_ok fuel low high st v st' :
  key_ok st -> randint1 fuel low high st = Some (v, st') -> key_ok st'.
Proof.
  intros H E. unfold randint1 in E.
  destruct (high - low - 1 =? 0); [inversion E; subst; exact H|].
  destruct (bounded_masked fuel _ _ st) as [[val s1]|] eqn:Eb; [|discriminate].
  inversion E; subst. apply (bounded_masked_ok _ _ _ _ _ _ H Eb).
Qed.

Lemma choice1_ok {A} fuel (a : list A) st v st' :
  key_ok st -> choice1 fuel a st = Some (v, st') -> key_ok st' /\ In v a.
Proof.
  intros H E. unfold choice1 in E. destruct a as [|d a]; [discriminate|].
  apply bind_inv in E. destruct E as (i & s1 & Ei & E).
  unfold ret in E. injection E as E1 E2. subst st'.
  split; [apply (randint1_ok _ _ _ _ _ _ H Ei)|].
  apply randint1_range in Ei; [|cbn [List.length]; lia].
  rewrite <- E1. apply (nth_In (d :: a) d). lia.
Qed.

(** What holds of the state before a draw and is kept by it holds after the
    array is filled, and what the draw promises holds of every entry. *)
Lemma fill_inv {A} (I : RandomState -> Prop) (P : A -> Prop) (c : Rand A) :
  (forall st a st', I st -> c st = Some (a, st') -> P a /\ I st') ->
  forall n st xs st', I st -> fill n c st = Some (xs, st') ->
    Forall P xs /\ I st'.
Proof.
  intros Hc. induction n as [|n IH]; intros st xs st' Hi H; cbn [fill] in H.
  - inversion H; subst. split; [constructor | exact Hi].
  - apply bind_inv in H. destruct H as (x & s1 & Hx & H).
    apply bind_inv in H. destruct H as (ys & s2 & Hf & H).
    inversion H; subst.
    destruct (Hc _ _ _ Hi Hx) as [Px I1].
    destruct (IH _ _ _ I1 Hf) as [Pys I2].
    split; [constructor; assumption | exact I2].
Qed.

(** ** What the generator guarantees of every row *)

Local Opaque n_municipios.

(** The ranges of the six drawn columns. *)
Lemma sorteios_faixas M fuel pop pop60 pib idh_ reg dens r1 r2 r3 final :
  sorteios M fuel pop pop60 pib idh_ reg dens r1 r2 r3 final ->
  Forall (fun v => 10000 <= v < 800000) pop
  /\ Forall (fun v => 1000 <= v < 150000) pop60
  /\ Forall (fun v => 8000 <= v /\ v < 45000)%Q pib
  /\ Forall (fun v => 5 # 10 <= v /\ v < 9 # 10)%Q idh_
  /\ Forall (fun v => In v regioes_brasil) reg
  /\ Forall (fun v => 10 <= v /\ v < 500)%Q dens.
Proof.
  intros (s1 & s2 & s3 & s4 & s5 & s6 & s7 & s8 &
          H1 & H2 & H3 & H4 & H5 & H6 & _).
  pose proof (fun lo hi (Hlh : lo < hi) =>
    fill_inv key_ok (fun v => lo <= v < hi) (randint1 fuel lo hi)
      (fun st a st' Hk E =>
         conj (randint1_range fuel lo hi st a st' Hlh E)
              (randint1_ok fuel lo hi st a st' Hk E))) as Fi.
  pose proof (fun lo hi (Hlh : (lo < hi)%Q) =>
    fill_inv key_ok (fun v => lo <= v /\ v < hi)%Q (uniform1 lo hi)
      (fun st a st' Hk E =>
         match uniform1_ok lo hi st a st' Hlh Hk E with
         | conj A (conj B C) => conj (conj A B) C
         end)) as Fu.
  pose proof (fill_inv key_ok (fun v => In v regioes_brasil)
                (choice1 fuel regioes_brasil)
                (fun st a st' Hk E =>
                   match choice1_ok fuel regioes_brasil st a st' Hk E with
                   | conj A B => conj B A
                   end)) as Fc.
  destruct (Fi 10000 800000 eq_refl _ _ _ _ (seed_ok 42) H1) as [P1 K1].
  destruct (Fi 1000 150000 eq_refl _ _ _ _ K1 H2) as [P2 K2].
  destruct (Fu 8000%Q 45000%Q eq_refl _ _ _ _ K2 H3) as [P3 K3].
  destruct (Fu (5 # 10)%Q (9 # 10)%Q eq_refl _ _ _ _ K3 H4) as [P4 K4].
  destruct (Fc _ _ _ _ K4 H5) as [P5 K5].
  destruct (Fu 10%Q 500%Q eq_refl _ _ _ _ K5 H6) as [P6 K6].
  repeat split; assumption.
Qed.

Lemma NoDup_map_seq (f : nat -> Z) n :
  (forall i j, f i = f j -> i = j) -> NoDup (map f (seq 0 n)).
Proof.
  intros Hinj. generalize 0%nat as s.
  induction n as [|n IH]; intros s; cbn [seq map]; constructor.
  - intros Hin. apply in_map_iff in Hin. destruct Hin as (j & E & Hj).
    apply Hinj in E. subst j. apply in_seq in Hj. lia.
  - apply IH.
Qed.

(** X1: every run that returns gives 200 rows; row [i] is numbered [100000 + i]
    and named "Município i+1", so no number repeats; its [pib_per_capita] is
    in [8000, 45000), its [idh] in [0.5, 0.9), its [densidade_demografica] in
    [10, 500), its region is one of the five, and its
    [procedimentos_alta_complexidade], the one derived column without noise,
    is above 26 and below 3150. *)
Theorem gerador_colunas_base M fuel g df st :
  carregar_dados_completos M fuel g = Some (df, st) ->
  List.length df = 200%nat
  /\ NoDup (col codigo_ibge df)
  /\ forall i r, nth_error df i = Some r ->
       codigo_ibge r = 100000 + Z.of_nat i
       /\ municipio r = ("Município " ++ str_of_nat (S i))%string
       /\ (8000 <= pib_per_capita r)%Q /\ (pib_per_capita r < 45000)%Q
       /\ (5 # 10 <= idh r)%Q /\ (idh r < 9 # 10)%Q
       /\ In (regiao r) regioes_brasil
       /\ (10 <= densidade_demografica r)%Q
       /\ (densidade_demografica r < 500)%Q
       /\ (26 < procedimentos_alta_complexidade r)%Q
       /\ (procedimentos_alta_complexidade r < 3150)%Q.
Proof.
  intros H.
  destruct (carregar_linhas _ _ _ _ _ H)
    as (pop & pop60 & pib & idh_ & reg & dens & r1 & r2 & r3 & Hs & Hdf).
  destruct (sorteios_length _ _ _ _ _ _ _ _ _ _ _ _ Hs)
    as (L1 & L2 & L3 & L4 & L5 & L6 & _).
  destruct (sorteios_faixas _ _ _ _ _ _ _ _ _ _ _ _ Hs)
    as (P1 & P2 & P3 & P4 & P5 & P6).
  assert (Hlen : List.length df = n_municipios)
    by (rewrite Hdf, length_map, length_seq; reflexivity).
  split; [exact Hlen|]. split.
  - rewrite Hdf. unfold col. rewrite map_map. cbn [linha codigo_ibge].
    apply NoDup_map_seq. intros i j E. lia.
  - intros i r Hr.
    assert (Hi : (i < n_municipios)%nat)
      by (rewrite <- Hlen; eapply nth_error_lt_Some; eassumption).
    rewrite Hdf in Hr.
    rewrite (nth_error_map_seq
               (fun i => linha i pop pop60 pib idh_ reg dens r1 r2 r3) _ i Hi)
      in Hr.
    inversion Hr; subst r; clear Hr.
    assert (Q1 := Forall_nth_lt _ _ i 0 P1 ltac:(lia)).
    assert (Q2 := Forall_nth_lt _ _ i 0 P2 ltac:(lia)).
    assert (Q3 := Forall_nth_lt _ _ i 0%Q P3 ltac:(lia)).
    assert (Q4 := Forall_nth_lt _ _ i 0%Q P4 ltac:(lia)).
    assert (Q5 := Forall_nth_lt _ _ i Norte P5 ltac:(lia)).
    assert (Q6 := Forall_nth_lt _ _ i 0%Q P6 ltac:(lia)).
    cbv beta in Q1, Q2, Q3, Q4, Q5, Q6.
    unfold linha; cbn [codigo_ibge municipio pib_per_capita idh regiao
      densidade_demografica procedimentos_alta_complexidade].
    assert (Hp0 := pct_pos (nth i pop60 0) (nth i pop 0) ltac:(lia) ltac:(lia)).
    assert (Hp1 : (inject_Z (nth i pop60 0%Z) / inject_Z (nth i pop 0%Z) * 100
                   < 1500)%Q).
    { assert (E : (1500 == inject_Z 15 * 100)%Q) by reflexivity.
      rewrite E. apply pct_lt; lia. }
    destruct Q3 as [Q3a Q3b], Q4 as [Q4a Q4b], Q6 as [Q6a Q6b].
    repeat split; try assumption; try reflexivity.
    + assert (E : (nth i pib 0 / 300 == nth i pib 0 * (1 # 300))%Q)
        by (unfold Qdiv; reflexivity).
      rewrite E. lra.
    + assert (E : (nth i pib 0 / 300 == nth i pib 0 * (1 # 300))%Q)
        by (unfold Qdiv; reflexivity).
      rewrite E. lra.
Qed.

Lemma gerador_colunas_base_witness :
  List.length dados_amostra = 200%nat /\ NoDup (col codigo_ibge dados_amostra).
Proof.
  destruct (gerador_colunas_base libm_q 64 (seed 0) dados_amostra estado_amostra
              carregar_amostra) as (H1 & H2 & _).
  exact (conj H1 H2).
Defined.

(** The two populations of a generated row. *)
Lemma linha_populacoes M fuel g df st r :
  carregar_dados_completos M fuel g = Some (df, st) -> In r df ->
  10000 <= populacao_total r < 800000
  /\ 1000 <= populacao_60_mais r < 150000
  /\ percentual_idosos r
     = (inject_Z (populacao_60_mais r) / inject_Z (populacao_total r) * 100)%Q.
Proof.
  intros H Hr.
  destruct (carregar_In _ _ _ _ _ _ H Hr)
    as (pop & pop60 & pib & idh_ & reg & dens & r1 & r2 & r3 & i & Hs & Hi & ->).
  destruct (sorteios_length _ _ _ _ _ _ _ _ _ _ _ _ Hs) as (L1 & L2 & _).
  destruct (sorteios_faixas _ _ _ _ _ _ _ _ _ _ _ _ Hs) as (P1 & P2 & _).
  assert (Q1 := Forall_nth_lt _ _ i 0 P1 ltac:(lia)).
  assert (Q2 := Forall_nth_lt _ _ i 0 P2 ltac:(lia)).
  cbv beta in Q1, Q2.
  unfold linha; cbn [populacao_total populacao_60_mais percentual_idosos].
  repeat split; try apply Q1; try apply Q2.
Qed.

(** X8: with the upper end of the percentage slider at 100 or below, as with its
    default of 25, no row is shown whose older population exceeds its total
    population. *)
Theorem filtro_oculta_inconsistentes M fuel g df st regioes faixa_idosos faixa_pib :
  carregar_dados_completos M fuel g = Some (df, st) ->
  (snd faixa_idosos <= 100)%Q ->
  Forall (fun r => populacao_60_mais r <= populacao_total r
                   /\ (percentual_idosos r <= 100)%Q)
         (df_filtrado df regioes faixa_idosos faixa_pib).
Proof.
  intros H Hhi. apply Forall_forall. intros r Hr.
  rewrite df_filtrado_filter in Hr. apply filter_In in Hr.
  destruct Hr as [Hr E]. apply satisfaz_spec in E.
  destruct E as (_ & _ & E & _).
  assert (Hp : (percentual_idosos r <= 100)%Q) by lra.
  split; [|exact Hp].
  destruct (linha_populacoes _ _ _ _ _ _ H Hr) as (Q1 & Q2 & Ep).
  destruct (Z.le_gt_cases (populacao_60_mais r) (populacao_total r)) as [Hle|Hgt];
    [exact Hle|].
  exfalso. rewrite Ep in Hp.
  pose proof (pct_gt (populacao_60_mais r) (populacao_total r) ltac:(lia) Hgt).
  lra.
Qed.

Lemma filtro_oculta_inconsistentes_witness :
  Forall (fun r => populacao_60_mais r <= populacao_total r
                   /\ (percentual_idosos r <= 100)%Q)
         filtro_padrao.
Proof.
  apply (filtro_oculta_inconsistentes libm_q 64 (seed 0) dados_amostra
           estado_amostra regioes_brasil (5, 25)%Q (10000, 40000)%Q
           carregar_amostra).
  vm_compute. discriminate.
Defined.

(** X12: every row of a generated table, filtered or not, gets a size class: the
    column [porte] has no NaN, so the box plot and the grouping by class drop
    no row. *)
Theorem porte_sem_nan M fuel g df st regioes faixa_idosos faixa_pib :
  carregar_dados_completos M fuel g = Some (df, st) ->
  ~ In None (porte df)
  /\ ~ In None (porte (df_filtrado df regioes faixa_idosos faixa_pib)).
Proof.
  intros H.
  assert (Hd : forall r, In r df -> porte_de (populacao_total r) <> None).
  { intros r Hr. destruct (linha_populacoes _ _ _ _ _ _ H Hr) as (Q1 & _).
    rewrite porte_de_cases.
    destruct (Z.leb_spec (populacao_total r) 0); [lia|].
    destruct (populacao_total r <=? 20000); [discriminate|].
    destruct (populacao_total r <=? 100000); [discriminate|].
    destruct (populacao_total r <=? 500000); discriminate. }
  split; rewrite porte_map; intros Hin; apply in_map_iff in Hin;
    destruct Hin as (r & E & Hr).
  - exact (Hd r Hr E).
  - rewrite df_filtrado_filter in Hr. apply filter_In in Hr.
    exact (Hd r (proj1 Hr) E).
Qed.

Lemma porte_sem_nan_witness :
  ~ In None (porte dados_amostra) /\ ~ In None (porte filtro_padrao).
Proof.
  exact (porte_sem_nan libm_q 64 (seed 0) dados_amostra estado_amostra
           regioes_brasil (5, 25)%Q (10000, 40000)%Q carregar_amostra).
Defined.

(** ** The generator on every platform *)

Local Opaque n_municipios.

(** X2: with at least 64 iterations allowed to each rejection loop, the generator
    returns a table of 200 rows on every platform and from every earlier
    state of the global generator: no draw of the stream of seed 42 is
    rejected more often than that. *)
Theorem gerador_retorna M fuel g :
  (64 <= fuel)%nat ->
  exists df st,
    carregar_dados_completos M fuel g = Some (df, st)
    /\ List.length df = 200%nat.
Proof.
  intros Hf.
  destruct (carregar_retorna M fuel g Hf) as (df & st & H & _).
  exists df, st. split; [exact H|].
  destruct (carregar_linhas _ _ _ _ _ H)
    as (pop & pop60 & pib & idh_ & reg & dens & r1 & r2 & r3 & _ & ->).
  rewrite length_map, length_seq. reflexivity.
Qed.

Lemma gerador_retorna_witness :
  exists df st,
    carregar_dados_completos libm_q 100 (seed 7) = Some (df, st)
    /\ List.length df = 200%nat.
Proof. apply (gerador_retorna libm_q 100 (seed 7)). lia. Defined.

Lemma Some_pair_fst {A B} (a c : A) (b d : B) :
  Some (a, b) = Some (c, d) -> a = c.
Proof. intros H. injection H as H _. exact H. Qed.

(** X3: two runs that return, on two platforms, with two allowances and from two
    earlier states, agree on every column but the three with noise: only
    [internacoes_por_1000], [procedimentos_por_1000] and
    [gasto_internacao_per_capita] go through the platform's [sqrt] and
    [log]. *)
Theorem gerador_plataforma M1 M2 fuel1 fuel2 g1 g2 df1 st1 df2 st2 :
  carregar_dados_completos M1 fuel1 g1 = Some (df1, st1) ->
  carregar_dados_completos M2 fuel2 g2 = Some (df2, st2) ->
  col codigo_ibge df1 = col codigo_ibge df2
  /\ col municipio df1 = col municipio df2
  /\ col populacao_total df1 = col populacao_total df2
  /\ col populacao_60_mais df1 = col populacao_60_mais df2
  /\ col pib_per_capita df1 = col pib_per_capita df2
  /\ col idh df1 = col idh df2
  /\ col regiao df1 = col regiao df2
  /\ col densidade_demografica df1 = col densidade_demografica df2
  /\ col percentual_idosos df1 = col percentual_idosos df2
  /\ col procedimentos_alta_complexidade df1
     = col procedimentos_alta_complexidade df2.
Proof.
  intros H1 H2.
  destruct (carregar_linhas _ _ _ _ _ H1)
    as (pop & pop60 & pib & idh_ & reg & dens & r1 & r2 & r3 & Hs1 & Hdf1).
  destruct (carregar_linhas _ _ _ _ _ H2)
    as (pop' & pop60' & pib' & idh' & reg' & dens' & r1' & r2' & r3' & Hs2 & Hdf2).
  set (fuel := Nat.max fuel1 fuel2).
  apply (sorteios_mono _ _ fuel) in Hs1; [|apply Nat.le_max_l].
  apply (sorteios_mono _ _ fuel) in Hs2; [|apply Nat.le_max_r].
  destruct (sorteios_plataforma M1 M2 _ _ _ _ _ _ _ _ _ _ _ Hs1)
    as (q1 & q2 & q3 & final & Hs).
  pose proof (carregar_de_sorteios _ _ g2 _ _ _ _ _ _ _ _ _ _ Hs) as E.
  rewrite (carregar_de_sorteios _ _ g2 _ _ _ _ _ _ _ _ _ _ Hs2) in E.
  apply Some_pair_fst in E. rewrite <- Hdf2 in E.
  rewrite E, Hdf1. unfold col. rewrite !map_map.
  repeat split; reflexivity.
Qed.

Lemma gerador_plataforma_witness :
  carregar_dados_completos libm_linear 100 (seed 7)
    = Some (dados_linear, estado_linear)
  /\ col populacao_total dados_amostra = col populacao_total dados_linear
  /\ col pib_per_capita dados_amostra = col pib_per_capita dados_linear
  /\ col regiao dados_amostra = col regiao dados_linear
  /\ col percentual_idosos dados_amostra = col percentual_idosos dados_linear
  /\ col procedimentos_alta_complexidade dados_amostra
     = col procedimentos_alta_complexidade dados_linear
  /\ col internacoes_por_1000 dados_amostra
     <> col internacoes_por_1000 dados_linear.
Proof.
  destruct (gerador_plataforma libm_q libm_linear 64 100 (seed 0) (seed 7)
              dados_amostra estado_amostra dados_linear estado_linear
              carregar_amostra carregar_linear)
    as (_ & _ & H3 & _ & H5 & _ & H7 & _ & H9 & H10).
  split; [exact carregar_linear|].
  split; [exact H3|]. split; [exact H5|]. split; [exact H7|].
  split; [exact H9|]. split; [exact H10|].
  intros E.
  apply (f_equal (fun l => Qeq_bool (hd 0%Q l)
                             (hd 0%Q (col internacoes_por_1000 dados_amostra))))
    in E.
  vm_compute in E. discriminate E.
Defined.

Local Transparent n_municipios.

(** ** The order of the two quantiles *)

Lemma insert_sorted_sorted x l :
  StronglySorted Qle l -> StronglySorted Qle (insert_sorted x l).
Proof.
  induction 1 as [|y l Hs IH Hy]; cbn [insert_sorted].
  - constructor; constructor.
  - destruct (Qle_bool x y) eqn:E.
    + apply Qle_bool_iff in E. constructor; [constructor; assumption|].
      constructor; [exact E|].
      eapply Forall_impl; [|exact Hy]. intros z Hz. cbv beta in Hz.
      exact (Qle_trans _ _ _ E Hz).
    + assert (Hyx : (y <= x)%Q).
      { apply Qlt_le_weak, Qlt_bool_iff. unfold Qlt_bool. rewrite E. reflexivity. }
      constructor; [exact IH|].
      apply Forall_forall. intros z Hz. apply insert_sorted_In in Hz.
      destruct Hz as [->|Hz]; [exact Hyx|].
      rewrite Forall_forall in Hy. exact (Hy z Hz).
Qed.

Lemma sorted_values_sorted l : StronglySorted Qle (sorted_values l).
Proof.
  induction l as [|x l IH]; cbn [sorted_values fold_right]; [constructor|].
  apply insert_sorted_sorted. exact IH.
Qed.

Lemma insert_sorted_length x l :
  List.length (insert_sorted x l) = S (List.length l).
Proof.
  induction l as [|y l IH]; cbn [insert_sorted]; [reflexivity|].
  destruct (Qle_bool x y); cbn [List.length]; [reflexivity|].
  rewrite IH. reflexivity.
Qed.

Lemma sorted_values_length l : List.length (sorted_values l) = List.length l.
Proof.
  induction l as [|x l IH]; cbn [sorted_values fold_right]; [reflexivity|].
  rewrite insert_sorted_length. cbn [List.length].
  f_equal. exact IH.
Qed.

Lemma sorted_nth_le l d :
  StronglySorted Qle l ->
  forall i j, (i <= j < List.length l)%nat -> (nth i l d <= nth j l d)%Q.
Proof.
  induction 1 as [|y l Hs IH Hy]; intros i j Hij; cbn [List.length] in Hij;
    [lia|].
  destruct i as [|i], j as [|j]; cbn [nth]; try lia.
  - apply Qle_refl.
  - rewrite Forall_forall in Hy. apply Hy. apply nth_In. lia.
  - apply IH. lia.
Qed.

(** The two branches of numpy's [_lerp] are one function. *)
Lemma lerp_eq a b t : (lerp a b t == a + (b - a) * t)%Q.
Proof. unfold lerp. destruct (Qlt_bool t (1 # 2)); ring. Qed.

(** A quantile does not go down when its order goes up. *)
Lemma quantile_monotona xs q1 q2 :
  xs <> [] -> (0 <= q1)%Q -> (q1 <= q2)%Q -> (q2 <= 1)%Q ->
  exists v1 v2,
    quantile xs q1 = Fin v1 /\ quantile xs q2 = Fin v2 /\ (v1 <= v2)%Q.
Proof.
  intros Hne H0 H12 H1. destruct xs as [|x0 xs']; [contradiction|].
  set (xs := x0 :: xs') in *.
  set (arr := sorted_values xs).
  assert (Hs : StronglySorted Qle arr) by apply sorted_values_sorted.
  assert (Hl : List.length arr = List.length xs) by apply sorted_values_length.
  assert (Hn : (1 <= List.length xs)%nat) by (cbn; lia).
  set (n := List.length xs) in *.
  assert (HN : (Qlen xs - 1 == inject_Z (Z.of_nat (n - 1)))%Q).
  { unfold Qlen. fold n. replace (Z.of_nat (n - 1)) with (Z.of_nat n - 1) by lia.
    unfold Zminus. rewrite inject_Z_plus. reflexivity. }
  assert (HN0 : (0 <= Qlen xs - 1)%Q).
  { rewrite HN. rewrite <- (Zle_Qle 0). lia. }
  set (N := (Qlen xs - 1)%Q) in *.
  assert (Hle : forall i j, (i <= j <= n - 1)%nat ->
                  (nth i arr x0 <= nth j arr x0)%Q).
  { intros i j Hij. apply sorted_nth_le; [exact Hs|]. rewrite Hl. fold n. lia. }
  (* the index below a position short of the last *)
  assert (Hk : forall q, (0 <= q)%Q -> Qle_bool N (N * q) = false ->
                 (Z.to_nat (Qfloor (N * q)) < n - 1)%nat
                 /\ 0 <= Qfloor (N * q)).
  { intros q Hq E.
    assert (Hlt : (N * q < N)%Q)
      by (apply Qlt_bool_iff; unfold Qlt_bool; rewrite E; reflexivity).
    assert (Hv : (0 <= N * q)%Q) by (apply Qmult_le_0_compat; assumption).
    assert (Hf0 : 0 <= Qfloor (N * q)).
    { change 0 with (Qfloor 0). apply Qfloor_resp_le. exact Hv. }
    split; [|exact Hf0].
    assert (Hf : (inject_Z (Qfloor (N * q)) < inject_Z (Z.of_nat (n - 1)))%Q).
    { eapply Qle_lt_trans; [apply Qfloor_le|]. rewrite <- HN. exact Hlt. }
    rewrite <- Zlt_Qlt in Hf. lia. }
  unfold quantile. fold xs. cbv zeta. fold n. fold N. fold arr.
  destruct (Qle_bool N (N * q2)) eqn:E2.
  - (* the upper quantile is the greatest value *)
    destruct (Qle_bool N (N * q1)) eqn:E1.
    + do 2 eexists. split; [reflexivity|]. split; [reflexivity|].
      rewrite !lerp_eq. lra.
    + destruct (Hk q1 H0 E1) as [Hk1 _].
      do 2 eexists. split; [reflexivity|]. split; [reflexivity|].
      rewrite (lerp_eq (nth (n - 1) arr x0)).
      assert (B : (nth 0 arr x0 <= lerp (nth (Z.to_nat (Qfloor (N * q1))) arr x0)
                                     (nth (S (Z.to_nat (Qfloor (N * q1)))) arr x0)
                                     (N * q1 - inject_Z (Qfloor (N * q1)))
                   <= nth (n - 1) arr x0)%Q).
      { apply lerp_bounds; [split; apply Hle; lia | split; apply Hle; lia
                           | apply gamma_bounds]. }
      destruct B as [_ B]. lra.
  - assert (Hv12 : (N * q1 <= N * q2)%Q).
    { rewrite (Qmult_comm N q1), (Qmult_comm N q2).
      apply Qmult_le_compat_r; assumption. }
    assert (E1 : Qle_bool N (N * q1) = false).
    { destruct (Qle_bool N (N * q1)) eqn:E; [|reflexivity].
      apply Qle_bool_iff in E.
      assert (C : Qle_bool N (N * q2) = true)
        by (apply Qle_bool_iff; eapply Qle_trans; eassumption).
      congruence. }
    rewrite E1.
    destruct (Hk q1 H0 E1) as [Hk1 Hf1].
    destruct (Hk q2 (Qle_trans _ _ _ H0 H12) E2) as [Hk2 Hf2].
    pose proof (Qfloor_resp_le _ _ Hv12) as Hff.
    set (v1 := (N * q1)%Q) in *. set (v2 := (N * q2)%Q) in *.
    set (k1 := Z.to_nat (Qfloor v1)) in *. set (k2 := Z.to_nat (Qfloor v2)) in *.
    do 2 eexists. split; [reflexivity|]. split; [reflexivity|].
    destruct (Z.eq_dec (Qfloor v1) (Qfloor v2)) as [Eq|Ne].
    + assert (Ek : k1 = k2) by (unfold k1, k2; rewrite Eq; reflexivity).
      rewrite <- Ek. rewrite !lerp_eq. rewrite <- Eq.
      assert (Hab : (nth k1 arr x0 <= nth (S k1) arr x0)%Q) by (apply Hle; lia).
      assert (Hg : (v1 - inject_Z (Qfloor v1) <= v2 - inject_Z (Qfloor v1))%Q)
        by lra.
      nra.
    + assert (Hlt : (S k1 <= k2)%nat) by (unfold k1, k2; lia).
      assert (B1 : (nth k1 arr x0
                    <= lerp (nth k1 arr x0) (nth (S k1) arr x0)
                         (v1 - inject_Z (Qfloor v1))
                    <= nth (S k1) arr x0)%Q).
      { apply lerp_bounds; [split; [apply Qle_refl | apply Hle; lia]
                           | split; [apply Hle; lia | apply Qle_refl]
                           | apply gamma_bounds]. }
      assert (B2 : (nth k2 arr x0
                    <= lerp (nth k2 arr x0) (nth (S k2) arr x0)
                         (v2 - inject_Z (Qfloor v2))
                    <= nth (S k2) arr x0)%Q).
      { apply lerp_bounds; [split; [apply Qle_refl | apply Hle; lia]
                           | split; [apply Hle; lia | apply Qle_refl]
                           | apply gamma_bounds]. }
      assert (B3 : (nth (S k1) arr x0 <= nth k2 arr x0)%Q) by (apply Hle; lia).
      destruct B1 as [_ B1], B2 as [B2 _]. lra.
Qed.

(** X13: the 0.25 quantile of a non-empty frame is never above its 0.75 quantile,
    so a row is in both cohorts only when the two quantiles are one number,
    and the row's percentage is that number; a row strictly between the two
    is in neither cohort. *)
Theorem coortes_limites_ordenados df :
  df <> [] ->
  exists qb qa,
    limite_baixo df = Fin qb /\ limite_alto df = Fin qa /\ (qb <= qa)%Q
    /\ (forall r, In r (alto_idosos df) -> In r (baixo_idosos df) ->
          (qb == qa)%Q /\ (percentual_idosos r == qa)%Q)
    /\ (forall r, In r df ->
          (qb < percentual_idosos r)%Q -> (percentual_idosos r < qa)%Q ->
          ~ In r (alto_idosos df) /\ ~ In r (baixo_idosos df)).
Proof.
  intros Hne.
  assert (Hc : col percentual_idosos df <> []).
  { destruct df; [contradiction|]. discriminate. }
  destruct (quantile_monotona (col percentual_idosos df) (25 # 100) (75 # 100)
              Hc ltac:(discriminate) ltac:(discriminate) ltac:(discriminate))
    as (qb & qa & Eb & Ea & Hle).
  exists qb, qa. fold (limite_baixo df) in Eb. fold (limite_alto df) in Ea.
  split; [exact Eb|]. split; [exact Ea|]. split; [exact Hle|]. split.
  - intros r Ha Hb.
    apply alto_idosos_In in Ha. destruct Ha as [_ Ha].
    apply baixo_idosos_In in Hb. destruct Hb as [_ Hb].
    rewrite Ea in Ha. rewrite Eb in Hb. cbn in Ha, Hb.
    apply Qle_bool_iff in Ha, Hb. split; lra.
  - intros r Hr H1 H2. split; intros C.
    + apply alto_idosos_In in C. destruct C as [_ C].
      rewrite Ea in C. cbn in C. apply Qle_bool_iff in C. lra.
    + apply baixo_idosos_In in C. destruct C as [_ C].
      rewrite Eb in C. cbn in C. apply Qle_bool_iff in C. lra.
Qed.

Lemma coortes_limites_ordenados_witness :
  exists qb qa,
    limite_baixo filtro_padrao = Fin qb /\ limite_alto filtro_padrao = Fin qa
    /\ (qb <= qa)%Q.
Proof.
  destruct (coortes_limites_ordenados filtro_padrao filtro_padrao_nao_vazio)
    as (qb & qa & H1 & H2 & H3 & _).
  exists qb, qa. auto.
Defined.

(** ** The thousands separator of the cards *)

Lemma chars_app s t :
  list_ascii_of_string (s ++ t)
  = list_ascii_of_string s ++ list_ascii_of_string t.
Proof.
  induction s as [|c s IH]; cbn [append list_ascii_of_string app];
    [reflexivity | rewrite IH; reflexivity].
Qed.

(** The characters that are neither of the two separators. *)
Lemma string_of_uint_digitos d :
  Forall (fun c => negb (Ascii.eqb c ".") && negb (Ascii.eqb c ",") = true)
         (list_ascii_of_string (NilEmpty.string_of_uint d)).
Proof.
  induction d; cbn [NilEmpty.string_of_uint list_ascii_of_string];
    constructor; try reflexivity; assumption.
Qed.

Lemma str_of_Z_digitos z :
  Forall (fun c => negb (Ascii.eqb c ".") && negb (Ascii.eqb c ",") = true)
         (list_ascii_of_string (str_of_Z z)).
Proof.
  unfold str_of_Z, NilZero.string_of_uint.
  destruct (N.to_uint (Z.to_N z)) eqn:E;
    try (rewrite <- E; apply string_of_uint_digitos).
  repeat constructor.
Qed.

(** Replacing every comma by a dot and then deleting the dots deletes the
    commas and the dots. *)
Lemma replace_sem_pontos s :
  filter (fun c => negb (Ascii.eqb c "."))
         (list_ascii_of_string (replace_char "," "." s))
  = filter (fun c => negb (Ascii.eqb c ".") && negb (Ascii.eqb c ","))
           (list_ascii_of_string s).
Proof.
  induction s as [|c s IH]; cbn [replace_char list_ascii_of_string filter];
    [reflexivity|].
  rewrite IH. destruct (Ascii.eqb c ",") eqn:E.
  - rewrite andb_false_r. reflexivity.
  - rewrite andb_true_r. reflexivity.
Qed.

Lemma group3_sem_virgulas (k : ascii -> bool) :
  k ","%char = false ->
  forall n ds, (List.length ds <= n)%nat -> filter k (group3 ds) = filter k ds.
Proof.
  intros Hk. induction n as [|n IH]; intros ds Hn.
  - destruct ds; [reflexivity | cbn in Hn; lia].
  - destruct ds as [|a [|b [|c [|d rest]]]]; try reflexivity.
    change (group3 (a :: b :: c :: d :: rest))
      with ([a; b; c; ","%char] ++ group3 (d :: rest)).
    change (a :: b :: c :: d :: rest) with ([a; b; c] ++ d :: rest).
    rewrite !filter_app.
    rewrite (IH (d :: rest)) by (cbn [List.length] in Hn |- *; lia).
    f_equal. cbn [filter]. rewrite Hk. reflexivity.
Qed.

(** Deleting the separators from a grouped numeral gives the numeral. *)
Lemma thousands_sem_separadores digits :
  Forall (fun c => negb (Ascii.eqb c ".") && negb (Ascii.eqb c ",") = true)
         (list_ascii_of_string digits) ->
  filter (fun c => negb (Ascii.eqb c ".") && negb (Ascii.eqb c ","))
         (list_ascii_of_string (thousands digits))
  = list_ascii_of_string digits.
Proof.
  intros H. unfold thousands.
  rewrite list_ascii_of_string_of_list_ascii, filter_rev.
  rewrite (group3_sem_virgulas _ eq_refl _ _ (le_n _)).
  rewrite filter_rev, rev_involutive.
  apply filter_all. rewrite Forall_forall in H. exact H.
Qed.

Lemma format_f0_sem_separadores x :
  filter (fun c => negb (Ascii.eqb c ".") && negb (Ascii.eqb c ","))
         (list_ascii_of_string (format_f0_grouped x))
  = list_ascii_of_string (format_f 0 x).
Proof.
  destruct x as [q| | |]; try reflexivity.
  unfold format_f0_grouped, format_f.
  change (10 ^ Z.of_nat 0) with 1. rewrite Z.div_1_r.
  rewrite (round_half_even_comp (Qabs q * inject_Z 1) (Qabs q))
    by (change (inject_Z 1) with 1%Q; ring).
  rewrite !chars_app, filter_app.
  rewrite thousands_sem_separadores by apply str_of_Z_digitos.
  cbn [list_ascii_of_string]. rewrite app_nil_r.
  destruct (Qlt_bool q 0); reflexivity.
Qed.

(** X10: the three cards with a thousands separator show their number with no
    comma: deleting the dots from the text gives the plain numeral, the row
    count for "Municípios Analisados" and the mean rounded to an integer for
    "População Média" and "PIB per Capita Médio", whatever the frame, "nan"
    for an empty one. *)
Theorem cards_separador_de_milhar df v :
  filter (fun c => negb (Ascii.eqb c "."))
         (list_ascii_of_string (fst (card_municipios df v)))
  = list_ascii_of_string (str_of_Z (Z.of_nat (List.length v)))
  /\ filter (fun c => negb (Ascii.eqb c "."))
            (list_ascii_of_string (card_populacao v))
     = list_ascii_of_string
         (format_f 0 (mean (Series.of_ints (col populacao_total v))))
  /\ filter (fun c => negb (Ascii.eqb c "."))
            (list_ascii_of_string (card_pib v))
     = list_ascii_of_string
         ("R$ " ++ format_f 0 (mean (col pib_per_capita v)))
  /\ ~ In ","%char (list_ascii_of_string (fst (card_municipios df v)))
  /\ ~ In ","%char (list_ascii_of_string (card_populacao v))
  /\ ~ In ","%char (list_ascii_of_string (card_pib v)).
Proof.
  assert (Hc : forall s, ~ In ","%char
                           (list_ascii_of_string (replace_char "," "." s))).
  { induction s as [|c s IH]; cbn [replace_char list_ascii_of_string];
      [intros []|].
    intros [E|E]; [|exact (IH E)].
    destruct (Ascii.eqb c ",") eqn:Ec; [discriminate E|].
    subst c. discriminate Ec. }
  repeat split; try apply Hc.
  - unfold card_municipios. cbn [fst]. rewrite replace_sem_pontos.
    unfold format_int_grouped.
    destruct (Z.ltb_spec (Z.of_nat (List.length v)) 0) as [H|_]; [lia|].
    apply thousands_sem_separadores, str_of_Z_digitos.
  - unfold card_populacao. rewrite replace_sem_pontos.
    apply format_f0_sem_separadores.
  - unfold card_pib. rewrite replace_sem_pontos, !chars_app, filter_app.
    rewrite format_f0_sem_separadores. reflexivity.
Qed.
